(** * Realm selection and comms transports of the kernel: a shallow embedding

    The development follows the TypeScript sources:
    - [Sagas]      : [sameRealm] and [changeRealm] of the comms sagas;
    - [CommsUrl]   : [resolveCommsV4Url];
    - [Scoring]    : [closePeersScoreLink];
    - [WS]         : the browser [WebSocket] object both transports drive;
    - [Broker]     : [CliBrokerConnection] (legacy coordinator transport);
    - [BFF]        : [BFFConnection].

    JavaScript exceptions and rejected promises are values of [Res]; code
    that mutates [this] is written in a state-and-exception monad [M] in
    which a throw keeps the mutations made so far, as in JavaScript. The
    generated protobuf code, the identity collaborator and the platform's
    [URL] are parameters. The definitions come first; their properties
    follow in [SagasProps], [CommsUrlProps], [ScoringProps], [BrokerProps]
    and [BFFProps]. *)

From Stdlib Require Import ZArith Lia.
From stdpp Require Import base option list strings sorting.

Open Scope string_scope.
Open Scope list_scope.

(** ** Bytes, errors and the effect monad *)

(** A [Uint8Array]: the bytes of a frame. *)
Definition Uint8Array := list Byte.byte.

(** What a [throw] (or a rejected promise) carries. *)
Inductive JsError :=
| Error (message : string)      (* new Error(message) *)
| InvalidStateError             (* DOMException of WebSocket.send while CONNECTING *)
| TypeError (message : string)  (* new URL(...) on an invalid URL *)
| DecodeError.                  (* a protobuf deserializeBinary that throws *)

(** The text a logger prints for a caught error. *)
Definition errorMessage (e : JsError) : string :=
  match e with
  | Error m => m
  | InvalidStateError => "InvalidStateError"
  | TypeError m => m
  | DecodeError => "Assertion failed"
  end.

Inductive Res (A : Type) :=
| Ok (a : A)
| Throw (e : JsError).
Arguments Ok {A} a.
Arguments Throw {A} e.

Definition M (St A : Type) : Type := St -> Res A * St.

Definition ret {St A} (a : A) : M St A := fun s => (Ok a, s).

Definition throw {St A} (e : JsError) : M St A := fun s => (Throw e, s).

Definition bind {St A B} (m : M St A) (k : A -> M St B) : M St B :=
  fun s => match m s with
           | (Ok a, s') => k a s'
           | (Throw e, s') => (Throw e, s')
           end.

Definition modify {St} (f : St -> St) : M St unit := fun s => (Ok tt, f s).

Definition exec {St A} (m : M St A) (s : St) : St := snd (m s).

#[export] Instance M_ret {St} : MRet (M St) := fun A => @ret St A.
#[export] Instance M_bind {St} : MBind (M St) := fun A B k m => @bind St A B m k.

Inductive Level := LInfo | LLog | LWarn | LError.

(** One call of an [ILogger] method. *)
Record LogLine := mkLog { level : Level; text : string }.

(** ** shared/comms/sagas: realm change detection *)

Module Sagas.

Record Realm := mkRealm {
  protocol : string;
  hostname : string;
  serverName : string
}.

(** [function sameRealm(realm1, realm2)]: the second conjunct of the source
    reads [realm2.hostname === realm2.hostname]. *)
Definition sameRealm (realm1 realm2 : Realm) : bool :=
  String.eqb (serverName realm1) (serverName realm2)
  && String.eqb (hostname realm2) (hostname realm2).

(** Redux actions a saga can [put]. *)
Inductive Action :=
| setCatalystRealm (realm : Realm).

(** What a run of a saga does, in order. *)
Inductive Effect :=
| LogInfo (msg : string)
| Put (a : Action).

Section ChangeRealm.

(** [realmToConnectionString] of shared/dao/utils, used for log lines only. *)
Variable realmToConnectionString : Realm -> string.

(** [function* changeRealm()]: [currentRealm] is what [select(getRealm)]
    yields, [otherRealm] what [call(selectRealm)] yields. *)
Definition changeRealm (currentRealm : option Realm) (otherRealm : Realm)
  : list Effect :=
  match currentRealm with
  | None => [LogInfo "No realm set, wait for actual DAO initialization"]
  | Some currentRealm =>
      if negb (sameRealm currentRealm otherRealm) then
        [LogInfo ("Changing realm from " +:+ realmToConnectionString currentRealm
                  +:+ " to " +:+ realmToConnectionString otherRealm);
         Put (setCatalystRealm otherRealm)]
      else
        [LogInfo ("Realm already set " +:+ realmToConnectionString currentRealm)]
  end.

(** A reconnection is triggered when the run puts [setCatalystRealm]. *)
Definition reconnects (effs : list Effect) : bool :=
  existsb (fun e => match e with Put (setCatalystRealm _) => true | _ => false end) effs.

End ChangeRealm.

(** The actions a run puts, in order. *)
Definition puts (effs : list Effect) : list Action :=
  omap (fun e => match e with Put a => Some a | LogInfo _ => None end) effs.

(** The equality the specification asks for: both identity fields, pairwise. *)
Definition sameIdentity (realm1 realm2 : Realm) : Prop :=
  serverName realm1 = serverName realm2 /\ hostname realm1 = hostname realm2.

(** Two realms of one server name behind two hostnames. *)
Definition peerA : Realm := mkRealm "v2" "https://peer-a.example.org" "dg".
Definition peerB : Realm := mkRealm "v2" "https://peer-b.example.org" "dg".

(** A peer of [commsContext.peerData], with the two fields
    [updateUserVoicePlaying] reads and writes. *)
Record PeerInfo := mkPeerInfo {
  identity : option string;
  talking : bool
}.

Definition set_talking (b : bool) (p : PeerInfo) : PeerInfo :=
  mkPeerInfo (identity p) b.

(** Calls on the Unity interface. *)
Inductive UnityCall :=
| SetUserTalking (userId : string) (playing : bool).

(** The loop of [updateUserVoicePlaying] over
    [commsContext.peerData.values()], the peers in insertion order:
    [if (peerInfo.identity === userId) { peerInfo.talking = playing; break }]. *)
Fixpoint markTalking (userId : string) (playing : bool) (peers : list PeerInfo)
  : list PeerInfo :=
  match peers with
  | [] => []
  | peerInfo :: rest =>
      if bool_decide (identity peerInfo = Some userId)
      then set_talking playing peerInfo :: rest
      else peerInfo :: markTalking userId playing rest
  end.

(** [function* updateUserVoicePlaying(action)]: [commsContext] is what
    [select(getCommsContext)] yields, given by its peers; the result is the
    context after the run and the calls made on the Unity interface. *)
Definition updateUserVoicePlaying (userId : string) (playing : bool)
    (commsContext : option (list PeerInfo))
  : option (list PeerInfo) * list UnityCall :=
  (match commsContext with
   | Some peers => Some (markTalking userId playing peers)
   | None => None
   end,
   [SetUserTalking userId playing]).

End Sagas.

(** ** resolveCommsV4Url *)

Module CommsUrl.

Import Sagas.

(** [s.startsWith(p)] *)
Definition startsWith (p s : string) : bool := String.prefix p s.

(** [s.replace(/^p/, r)] for a literal prefix [p]. *)
Definition replacePrefix (p r s : string) : string :=
  if startsWith p s
  then r +:+ String.substring (String.length p) (String.length s - String.length p) s
  else s.

(** [s.match(/:\/\//)] is truthy: the separator occurs somewhere in [s]. *)
Definition hasSchemeSeparator (s : string) : bool :=
  match String.index 0 "://" s with Some _ => true | None => false end.

(** [function httpToWs(url)] *)
Definition httpToWs (url : string) : string :=
  replacePrefix "http://" "ws://" (replacePrefix "https://" "wss://" url).

Section Resolve.

(** [new URL(relative, base).toString()] of the platform: [None] when the
    constructor throws its [TypeError]. *)
Variable URL_toString : string -> string -> option string.

(** [export function resolveCommsV4Url(realm): string | undefined] *)
Definition resolveCommsV4Url (realm : Realm) : Res (option string) :=
  if negb (String.eqb (protocol realm) "v4") then Ok None
  else if String.eqb (hostname realm) "local" then
    Ok (Some (httpToWs "http://127.0.0.1:5002/ws-bff"))
  else if String.eqb (hostname realm) "remote" then
    Ok (Some (httpToWs "https://explorer-bff.decentraland.io/ws-bff"))
  else
    let server := if hasSchemeSeparator (hostname realm)
                  then hostname realm
                  else "https://" +:+ hostname realm in
    match URL_toString "bff/ws-bff" server with
    | Some server => Ok (Some (httpToWs server))
    | None => Throw (TypeError "Invalid URL")
    end.

End Resolve.

(** [new URL(relative, base).toString()] for a base that is an origin
    without a path, such as [https://peer.decentraland.org]. *)
Definition originJoin (relative base : string) : option string :=
  Some (base +:+ "/" +:+ relative).

Section WithProtocol.

(** [window.location.protocol], such as ["https:"]. *)
Variable locationProtocol : string.

(** [function normalizeUrl(url)] *)
Definition normalizeUrl (url : string) : string :=
  replacePrefix "://" (locationProtocol +:+ "//") url.

(** [export function urlWithProtocol(url)]: adds the currently used protocol
    to the given URL. *)
Definition urlWithProtocol (url : string) : string :=
  if negb (startsWith "http://" url) && negb (startsWith "https://" url)
     && negb (startsWith "://" url)
  then normalizeUrl ("://" +:+ url)
  else normalizeUrl url.

End WithProtocol.

(** [url] names its scheme as http or https. *)
Definition hasHttpScheme (url : string) : bool :=
  startsWith "http://" url || startsWith "https://" url.

End CommsUrl.

(** ** Catalyst candidate scoring: closePeersScoreLink *)

Module Scoring.

(** A parcel of the world grid. *)
Record Parcel := mkParcel { px : Z; py : Z }.

(** A realm advertisement with its optional per-user positions. *)
Record Candidate := mkCandidate {
  catalystName : string;
  domain : string;
  usersParcelsField : option (list Parcel)
}.

(** [usersParcels(candidate)] of ./utils. *)
Definition usersParcels (candidate : Candidate) : option (list Parcel) :=
  usersParcelsField candidate.

(** Modelled from the spec: [countParcelsCloseTo] of comms/interface/utils is
    not among the sources. It counts the positions within [maxDistance] of
    the reference parcel in Chebyshev (grid) distance. *)
Definition countParcelsCloseTo (reference : Parcel) (parcels : list Parcel)
  (maxDistance : Z) : Z :=
  Z.of_nat (length (filter
    (fun p => Z.max (Z.abs (px p - px reference)) (Z.abs (py p - py reference))
              <= maxDistance)%Z
    parcels)).

Record AlgorithmContext := mkContext {
  userParcel : Parcel;
  picked : list Candidate
}.

(** Descending order of a score, the order [selectFirstByScore] sorts by. *)
Definition byScoreDesc (score : Candidate -> Z) (a b : Candidate) : Prop :=
  (score b <= score a)%Z.

#[export] Instance byScoreDesc_dec score a b : Decision (byScoreDesc score a b).
Proof. unfold byScoreDesc. apply _. Defined.

(** Modelled from the spec: [selectFirstByScore] of ./utils is not among the
    sources. The candidates are sorted by adjusted score, descending; when
    the top score exceeds the second one by less than the margin the link
    makes no decision, otherwise (and when there is a single candidate) it
    returns the top candidate. *)
Definition selectFirstByScore (context : AlgorithmContext)
  (score : Candidate -> Z) (margin : Z) : option Candidate :=
  match merge_sort (byScoreDesc score) (picked context) with
  | [] => None
  | [c] => Some c
  | c1 :: c2 :: _ =>
      if (score c1 - score c2 <? margin)%Z then None else Some c1
  end.

Record ClosePeersScoreParameters (LatencyDeductionsParameters : Type) := mkParams {
  closePeersDistance : Z;
  baseScore : Z;
  latencyDeductionsParameters : LatencyDeductionsParameters
}.
Arguments mkParams {_} _ _ _.
Arguments closePeersDistance {_} _.
Arguments baseScore {_} _.
Arguments latencyDeductionsParameters {_} _.

Section ClosePeers.

Context {LatencyDeductionsParameters : Type}.

(** [defaultScoreAddons(latencyDeductionsParameters, baseScore, score)] of
    ./utils: the shared addon that turns a link's raw score into its adjusted
    score. *)
Variable defaultScoreAddons :
  LatencyDeductionsParameters -> Z -> (Candidate -> Z) -> Candidate -> Z.

Variable params : ClosePeersScoreParameters LatencyDeductionsParameters.

(** [function closeUsersScore(currentParcel)] *)
Definition closeUsersScore (currentParcel : Parcel) (candidate : Candidate) : Z :=
  match usersParcels candidate with
  | Some parcels =>
      if (0 <? length parcels)%nat
      then (baseScore params
            + countParcelsCloseTo currentParcel parcels (closePeersDistance params))%Z
      else 0%Z
  | None => 0%Z
  end.

(** The adjusted score the link ranks by. *)
Definition adjustedScore (context : AlgorithmContext) : Candidate -> Z :=
  defaultScoreAddons (latencyDeductionsParameters params) (baseScore params)
    (closeUsersScore (userParcel context)).

(** [pick] of the link returned by [closePeersScoreLink(params)]. *)
Definition pick (context : AlgorithmContext) : option Candidate :=
  selectFirstByScore context (adjustedScore context) 10.

End ClosePeers.

(** [c] beats every other candidate of [l] by the margin: what a decision
    of a scoring link asserts. *)
Definition wins (score : Candidate -> Z) (margin : Z)
  (l : list Candidate) (c : Candidate) : Prop :=
  exists others,
    l ≡ₚ c :: others /\ Forall (fun c' => (score c' + margin <= score c)%Z) others.

(** A run of the link: two candidates whose users stand around parcel (0,0),
    no latency deduction. *)
Definition noAddons (_ : unit) (_ : Z) (score : Candidate -> Z) : Candidate -> Z := score.

(** An addon that deducts 100 from the candidate named busy, as a latency
    deduction does for a slow server. *)
Definition slowBusy (_ : unit) (_ : Z) (score : Candidate -> Z) (c : Candidate) : Z :=
  if String.eqb (catalystName c) "busy" then (score c - 100)%Z else score c.

Definition crowd (n : nat) : list Parcel := replicate n (mkParcel 1 1).

Definition busy : Candidate := mkCandidate "busy" "busy.example.org" (Some (crowd 20)).
Definition quiet : Candidate := mkCandidate "quiet" "quiet.example.org" (Some (crowd 5)).
Definition empty : Candidate := mkCandidate "empty" "empty.example.org" None.

Definition exampleParams : ClosePeersScoreParameters unit := mkParams 4 20 tt.

Definition exampleContext : AlgorithmContext :=
  mkContext (mkParcel 0 0) [quiet; empty; busy].

End Scoring.

(** ** The browser WebSocket *)

Module WS.

Inductive ReadyState := CONNECTING | OPEN | CLOSING | CLOSED.

#[export] Instance ReadyState_eq_dec : EqDecision ReadyState.
Proof. solve_decision. Defined.

(** A socket object: its handler slots hold the one closure the owning
    transport installs ([true]) or [null] ([false]); [wire] is what the socket
    has transmitted, oldest first. *)
Record WebSocket := mkWS {
  url : string;
  subprotocol : string;
  readyState : ReadyState;
  onmessage : bool;
  onerror : bool;
  onclose : bool;
  wire : list Uint8Array
}.

(** [new WebSocket(url, subprotocol)] *)
Definition create (u proto : string) : WebSocket :=
  mkWS u proto CONNECTING false false false [].

Definition set_readyState (r : ReadyState) (w : WebSocket) : WebSocket :=
  mkWS (url w) (subprotocol w) r (onmessage w) (onerror w) (onclose w) (wire w).

Definition set_onmessage (b : bool) (w : WebSocket) : WebSocket :=
  mkWS (url w) (subprotocol w) (readyState w) b (onerror w) (onclose w) (wire w).

Definition set_onerror (b : bool) (w : WebSocket) : WebSocket :=
  mkWS (url w) (subprotocol w) (readyState w) (onmessage w) b (onclose w) (wire w).

Definition set_onclose (b : bool) (w : WebSocket) : WebSocket :=
  mkWS (url w) (subprotocol w) (readyState w) (onmessage w) (onerror w) b (wire w).

Definition transmit (data : Uint8Array) (w : WebSocket) : WebSocket :=
  mkWS (url w) (subprotocol w) (readyState w) (onmessage w) (onerror w) (onclose w)
       (wire w ++ [data]).

(** [ws.send(data)]: throws while CONNECTING, transmits while OPEN, and
    discards the data without an exception while CLOSING or CLOSED. *)
Definition send (data : Uint8Array) (w : WebSocket) : Res unit * WebSocket :=
  match readyState w with
  | CONNECTING => (Throw InvalidStateError, w)
  | OPEN => (Ok tt, transmit data w)
  | CLOSING | CLOSED => (Ok tt, w)
  end.

(** [ws.close()]: starts the closing handshake unless it has started. *)
Definition close (w : WebSocket) : WebSocket :=
  match readyState w with
  | CONNECTING | OPEN => set_readyState CLOSING w
  | CLOSING | CLOSED => w
  end.

(** The three assignments [ws.onmessage = ws.onerror = ws.onclose = null]. *)
Definition clear_handlers (w : WebSocket) : WebSocket :=
  set_onclose false (set_onerror false (set_onmessage false w)).

End WS.

(** ** CliBrokerConnection: the legacy coordinator transport *)

Module Broker.

Import WS.

(** The [MessageType] tags of ./proto/broker the transport switches on; every
    other tag of the enum is an [OTHER]. *)
Inductive MessageType :=
| WELCOME
| CONNECT
| TOPIC_FW
| TOPIC_IDENTITY_FW
| PING
| OTHER (tag : Z).

Record ConnectMessage := mkConnect {
  connectType : MessageType;
  toAlias : Z;
  fromAlias : Z
}.

(** The generated protobuf code of ./proto/broker: [None] is a
    [deserializeBinary] that throws. *)
Class Proto := {
  (* CoordinatorMessage.deserializeBinary(data).getType() *)
  getType : Uint8Array -> option MessageType;
  (* WelcomeMessage.deserializeBinary(msg).getAlias() *)
  getAlias : Uint8Array -> option Z;
  (* connectMessage.serializeBinary() *)
  serializeConnect : ConnectMessage -> Uint8Array
}.

Record TransportMessage := mkTransportMessage {
  topic : string;
  data : Uint8Array
}.

(** The calls made on a [Stats] object. *)
Record Stats := mkStats {
  othersRecv : list nat;          (* stats.others.incrementRecv(msgSize) *)
  dispatchTopicStarts : nat       (* stats.dispatchTopicDuration.start() *)
}.

(** An fp-future: settled at most once. *)
Inductive Future := Pending | Resolved | Rejected (e : JsError).

Definition resolve (f : Future) : Future :=
  match f with Pending => Resolved | _ => f end.

(** The fields of a [CliBrokerConnection], with the socket objects it has
    created ([ws] refers to one of them by its index) and what its logger and
    its [onMessageObservable] have been handed. *)
Record State := mkState {
  alias : option Z;
  stats : option Stats;
  logger : list LogLine;
  onMessageObservable : list TransportMessage;
  connected : Future;
  ws : option nat;
  sockets : list WebSocket
}.

Definition init : State := mkState None None [] [] Pending None [].

Definition set_alias (a : option Z) (s : State) : State :=
  mkState a (stats s) (logger s) (onMessageObservable s) (connected s) (ws s) (sockets s).

Definition set_stats (st : option Stats) (s : State) : State :=
  mkState (alias s) st (logger s) (onMessageObservable s) (connected s) (ws s) (sockets s).

Definition log (l : Level) (t : string) (s : State) : State :=
  mkState (alias s) (stats s) (logger s ++ [mkLog l t]) (onMessageObservable s)
          (connected s) (ws s) (sockets s).

Definition notifyObservers (m : TransportMessage) (s : State) : State :=
  mkState (alias s) (stats s) (logger s) (onMessageObservable s ++ [m])
          (connected s) (ws s) (sockets s).

Definition set_connected (f : Future) (s : State) : State :=
  mkState (alias s) (stats s) (logger s) (onMessageObservable s) f (ws s) (sockets s).

Definition set_ws (r : option nat) (s : State) : State :=
  mkState (alias s) (stats s) (logger s) (onMessageObservable s) (connected s) r (sockets s).

Definition set_sockets (l : list WebSocket) (s : State) : State :=
  mkState (alias s) (stats s) (logger s) (onMessageObservable s) (connected s) (ws s) l.

(** Apply [f] to the socket object [i]. *)
Definition on_socket (i : nat) (f : WebSocket -> WebSocket) (s : State) : State :=
  match sockets s !! i with
  | Some w => set_sockets (<[i := f w]> (sockets s)) s
  | None => s
  end.

Definition incrementRecv (n : nat) (s : State) : State :=
  match stats s with
  | Some st => set_stats (Some (mkStats (othersRecv st ++ [n]) (dispatchTopicStarts st))) s
  | None => s
  end.

Definition dispatchTopicDurationStart (s : State) : State :=
  match stats s with
  | Some st => set_stats (Some (mkStats (othersRecv st) (S (dispatchTopicStarts st)))) s
  | None => s
  end.

Definition notReady : JsError := Error "try to send answer to a non ready ws".

(** [private sendCoordinatorMessage = (msg) => ...] *)
Definition sendCoordinatorMessage (msg : Uint8Array) : M State unit :=
  fun s =>
    match ws s with
    | None => (Throw notReady, s)
    | Some i =>
        match sockets s !! i with
        | Some w =>
            if decide (readyState w = OPEN)
            then (fst (WS.send msg w), set_sockets (<[i := snd (WS.send msg w)]> (sockets s)) s)
            else (Throw notReady, s)
        | None => (Throw notReady, s)
        end
    end.

(** [send(data, _reliable)] *)
Definition send (msg : Uint8Array) (_reliable : bool) : M State unit :=
  sendCoordinatorMessage msg.

(** [async disconnect()] *)
Definition disconnect : M State unit :=
  fun s =>
    match ws s with
    | Some i => (Ok tt, set_ws None (on_socket i (fun w => WS.close (clear_handlers w)) s))
    | None => (Ok tt, s)
    end.

Section Transport.

Context `{Proto}.

(** The constructor's [url]. *)
Variable brokerUrl : string.

(** [async onWsMessage(event)]: a throw is the rejection of its promise. *)
Definition onWsMessage (msg : Uint8Array) : M State unit :=
  match getType msg with
  | None => throw DecodeError
  | Some WELCOME =>
      modify (incrementRecv (length msg));;
      match getAlias msg with
      | None => modify (log LError "cannot deserialize welcome client message")
      | Some a =>
          modify (set_alias (Some a));;
          modify (log LInfo "my alias is");;
          sendCoordinatorMessage (serializeConnect (mkConnect CONNECT 0 a));;
          modify (fun s => set_connected (resolve (connected s)) s)
      end
  | Some TOPIC_FW | Some TOPIC_IDENTITY_FW | Some PING =>
      modify dispatchTopicDurationStart;;
      modify (notifyObservers (mkTransportMessage "LEGACY" msg))
  | Some _ =>
      modify (incrementRecv (length msg));;
      modify (log LWarn "Ignoring message type")
  end.

(** [private connectWS()]: the new socket gets [onerror] and [onmessage]. *)
Definition connectWS : M State unit :=
  fun s =>
    let s1 := match ws s with
              | Some i => set_ws None (on_socket i WS.close s)
              | None => s
              end in
    let w := set_onmessage true (set_onerror true (WS.create brokerUrl "comms")) in
    (Ok tt, set_ws (Some (length (sockets s1))) (set_sockets (sockets s1 ++ [w]) s1)).

(** [async connect()] up to its [await this.connected]. *)
Definition connect : M State unit :=
  fun s => match ws s with
           | None => connectWS s
           | Some _ => (Ok tt, s)
           end.

(** What [await this.connected] yields, if it has completed. *)
Definition awaitConnected (s : State) : option (Res unit) :=
  match connected s with
  | Pending => None
  | Resolved => Some (Ok tt)
  | Rejected e => Some (Throw e)
  end.

(** [ws.onerror = (event) => ...] *)
Definition onerrorHandler (s : State) : State :=
  set_ws None (log LError "socket error" s).

(** [ws.onmessage = (event) => this.onWsMessage(event).catch(...)] *)
Definition onmessageHandler (msg : Uint8Array) (s : State) : State :=
  match onWsMessage msg s with
  | (Ok _, s') => s'
  | (Throw e, s') => log LError (errorMessage e) s'
  end.

(** What can happen to a transport: calls of its methods, and the events of
    the sockets it has created. *)
Inductive Event :=
| CallConnect
| CallSend (msg : Uint8Array) (reliable : bool)
| CallDisconnect
| SocketOpened (i : nat)
| SocketClosing (i : nat)
| SocketMessage (i : nat) (msg : Uint8Array)
| SocketError (i : nat)
| SocketClosed (i : nat).

(** One event, run to completion. A socket delivers messages only while
    OPEN, turns CLOSED when its error or close event fires, and fires nothing
    once CLOSED; an event whose handler slot is [null] runs no code. *)
Definition step (s : State) (ev : Event) : State :=
  match ev with
  | CallConnect => exec connect s
  | CallSend msg reliable => exec (send msg reliable) s
  | CallDisconnect => exec disconnect s
  | SocketOpened i =>
      on_socket i (fun w => if decide (readyState w = CONNECTING)
                            then set_readyState OPEN w else w) s
  | SocketClosing i =>
      on_socket i (fun w => if decide (readyState w = OPEN)
                            then set_readyState CLOSING w else w) s
  | SocketMessage i msg =>
      match sockets s !! i with
      | Some w => if bool_decide (readyState w = OPEN) && onmessage w
                  then onmessageHandler msg s else s
      | None => s
      end
  | SocketError i =>
      match sockets s !! i with
      | Some w => if decide (readyState w = CLOSED) then s
                  else let s1 := on_socket i (set_readyState CLOSED) s in
                       if onerror w then onerrorHandler s1 else s1
      | None => s
      end
  | SocketClosed i =>
      match sockets s !! i with
      | Some w => if decide (readyState w = CLOSED) then s
                  else on_socket i (set_readyState CLOSED) s
      | None => s
      end
  end.

Definition run (s : State) (tr : list Event) : State := fold_left step tr s.

End Transport.

(** A future that was rejected. *)
Definition settled_with_error (f : Future) : Prop :=
  match f with Rejected _ => True | _ => False end.

(** The events that break a connection attempt: a call of [disconnect], or
    a socket error whose handler runs. *)
Definition breaks (s : State) (ev : Event) : Prop :=
  ev = CallDisconnect
  \/ exists i w, ev = SocketError i /\ sockets s !! i = Some w
                 /\ readyState w <> CLOSED /\ onerror w = true.

(** A toy wire format for running the transport: the first byte is the
    message type, a welcome carries the alias in its second byte. *)
Definition toyType (b : Byte.byte) : MessageType :=
  match Byte.to_N b with
  | 1%N => WELCOME
  | 2%N => CONNECT
  | 6%N => PING
  | 10%N => TOPIC_FW
  | 12%N => TOPIC_IDENTITY_FW
  | n => OTHER (Z.of_N n)
  end.

Definition toyByte (z : Z) : Byte.byte :=
  match Byte.of_N (Z.to_N z) with Some b => b | None => Byte.x00 end.

Definition toyProto : Proto := {|
  getType msg := match msg with b :: _ => Some (toyType b) | [] => None end;
  getAlias msg := match msg with _ :: a :: _ => Some (Z.of_N (Byte.to_N a)) | _ => None end;
  serializeConnect m := [Byte.x02; toyByte (toAlias m); toyByte (fromAlias m)]
|}.

Definition welcome7 : Uint8Array := [Byte.x01; Byte.x07].

Definition brokerUrl0 : string := "wss://broker.example.org".

(** A run of the handshake: connect, the socket opens, the server welcomes
    the client with alias 7. *)
Definition handshake : list Event :=
  [CallConnect; SocketOpened 0; SocketMessage 0 welcome7].

(** The transport with its socket still connecting, and with its socket
    open before any WELCOME. *)
Definition connectingState : State := run (H := toyProto) brokerUrl0 init [CallConnect].
Definition awaitingAlias : State :=
  run (H := toyProto) brokerUrl0 init [CallConnect; SocketOpened 0].

(** What holds of the sockets of a reachable transport (see
    [BrokerMore.sockets_ok_run]): a socket the transport does not hold is
    CLOSED or has had its handlers cleared. *)
Definition sockets_ok (s : State) : Prop :=
  forall j w, sockets s !! j = Some w -> ws s <> Some j ->
              readyState w = CLOSED \/ (onmessage w = false /\ onerror w = false).

Section Frames.

Context `{Proto}.

(** The frames a run may transmit: those handed to [send], and the CONNECT
    replies to the WELCOME frames it received. *)
Definition allowed (tr : list Event) (frame : Uint8Array) : Prop :=
  (exists reliable, CallSend frame reliable ∈ tr)
  \/ (exists i msg a,
        SocketMessage i msg ∈ tr
        /\ getType msg = Some WELCOME /\ getAlias msg = Some a
        /\ frame = serializeConnect (mkConnect CONNECT 0 a)).

(** The types forwarded to the observers. *)
Definition forwarded (t : MessageType) : bool :=
  match t with
  | TOPIC_FW | TOPIC_IDENTITY_FW | PING => true
  | _ => false
  end.

End Frames.

End Broker.

(** ** BFFConnection *)

Module BFF.

Import WS.

(** The [MessageType] enum of ./proto/bff_pb; a tag the source does not name
    is an [OTHER]. *)
Module MessageType.
Inductive t :=
| UNKNOWN_MESSAGE_TYPE
| OPEN
| VALIDATION
| VALIDATION_OK
| VALIDATION_FAILURE
| HEARTBEAT
| SUBSCRIPTION
| TOPIC
| ISLAND_CHANGES
| OTHER (tag : Z).
End MessageType.

(** [Category] of ./proto/comms_pb. *)
Inductive Category := WORLD_POSITION.

(** [Position3D] of @dcl/catalyst-peer: a triple of numbers, which the
    transport copies and never computes with. *)
Definition Position3D (number : Type) : Type := (number * number * number)%type.

Record WorldPositionData (number : Type) := mkWorldPosition {
  category : Category;
  positionTime : Z;
  positionX : number;
  positionY : number;
  positionZ : number
}.
Arguments mkWorldPosition {_} _ _ _ _ _.
Arguments category {_} _.
Arguments positionTime {_} _.
Arguments positionX {_} _.
Arguments positionY {_} _.
Arguments positionZ {_} _.

Record HeartBeatMessage := mkHeartBeat {
  heartBeatType : MessageType.t;
  heartBeatTime : Z;
  heartBeatData : Uint8Array
}.

Record TopicMessage := mkTopic {
  topicType : MessageType.t;
  topicName : string;
  topicBody : Uint8Array
}.

Record SubscriptionMessage := mkSubscription {
  subscriptionType : MessageType.t;
  subscriptionTopics : Uint8Array
}.

Record ValidationMessage := mkValidation {
  validationType : MessageType.t;
  encodedPayload : string
}.

Record TopicData := mkTopicData {
  peerId : string;
  data : Uint8Array
}.

(** The generated protobuf code of ./proto/bff_pb and ./proto/comms_pb (a
    [deserializeBinary] that throws is [None]) and the identity collaborator. *)
Class Proto (number : Type) := {
  (* MessageHeader.deserializeBinary(data).getType() *)
  getType : Uint8Array -> option MessageType.t;
  (* OpenMessage.deserializeBinary(data).getPayload() *)
  getPayload : Uint8Array -> option string;
  (* TopicMessage.deserializeBinary(data): getPeerId() and getBody() *)
  getTopicData : Uint8Array -> option TopicData;
  (* IslandChangesMessage.deserializeBinary(data).getConnStr() *)
  getConnStr : Uint8Array -> option string;
  serializeWorldPosition : WorldPositionData number -> Uint8Array;
  serializeHeartBeat : HeartBeatMessage -> Uint8Array;
  serializeTopic : TopicMessage -> Uint8Array;
  serializeSubscription : SubscriptionMessage -> Uint8Array;
  serializeValidation : ValidationMessage -> Uint8Array;
  (* JSON.stringify(Authenticator.signPayload(config.getIdentity(), payload)) *)
  signedPayload : string -> string
}.

(** The fields of a [BFFConnection], with the socket objects and interval
    timers it has created and what its logger and observables were handed. *)
Record State := mkState {
  ws : option nat;  (* this.ws: the index of a socket object *)
  heartBeatInterval : option positive;  (* this.heartBeatInterval: a timer handle *)
  logger : list LogLine;  (* calls of this.logger *)
  onDisconnectObservable : nat;  (* notifications of onDisconnectObservable *)
  onTopicMessageObservable : list TopicData;  (* notifications of onTopicMessageObservable *)
  onIslandChangeObservable : list string;  (* notifications of onIslandChangeObservable *)
  sockets : list WebSocket;  (* the socket objects created so far *)
  timers : list positive;  (* the handles of the running intervals *)
  nextTimer : positive;  (* the next handle setInterval returns *)
  connecting : nat;  (* connect() calls suspended at their await *)
  unhandled : list JsError  (* rejections of promises nobody awaits *)
}.

Definition set_ws (x : option nat) (s : State) : State :=
  mkState x (heartBeatInterval s) (logger s) (onDisconnectObservable s) (onTopicMessageObservable s) (onIslandChangeObservable s) (sockets s) (timers s) (nextTimer s) (connecting s) (unhandled s).

Definition set_heartBeatInterval (x : option positive) (s : State) : State :=
  mkState (ws s) x (logger s) (onDisconnectObservable s) (onTopicMessageObservable s) (onIslandChangeObservable s) (sockets s) (timers s) (nextTimer s) (connecting s) (unhandled s).

Definition set_logger (x : list LogLine) (s : State) : State :=
  mkState (ws s) (heartBeatInterval s) x (onDisconnectObservable s) (onTopicMessageObservable s) (onIslandChangeObservable s) (sockets s) (timers s) (nextTimer s) (connecting s) (unhandled s).

Definition set_onDisconnectObservable (x : nat) (s : State) : State :=
  mkState (ws s) (heartBeatInterval s) (logger s) x (onTopicMessageObservable s) (onIslandChangeObservable s) (sockets s) (timers s) (nextTimer s) (connecting s) (unhandled s).

Definition set_onTopicMessageObservable (x : list TopicData) (s : State) : State :=
  mkState (ws s) (heartBeatInterval s) (logger s) (onDisconnectObservable s) x (onIslandChangeObservable s) (sockets s) (timers s) (nextTimer s) (connecting s) (unhandled s).

Definition set_onIslandChangeObservable (x : list string) (s : State) : State :=
  mkState (ws s) (heartBeatInterval s) (logger s) (onDisconnectObservable s) (onTopicMessageObservable s) x (sockets s) (timers s) (nextTimer s) (connecting s) (unhandled s).

Definition set_sockets (x : list WebSocket) (s : State) : State :=
  mkState (ws s) (heartBeatInterval s) (logger s) (onDisconnectObservable s) (onTopicMessageObservable s) (onIslandChangeObservable s) x (timers s) (nextTimer s) (connecting s) (unhandled s).

Definition set_timers (x : list positive) (s : State) : State :=
  mkState (ws s) (heartBeatInterval s) (logger s) (onDisconnectObservable s) (onTopicMessageObservable s) (onIslandChangeObservable s) (sockets s) x (nextTimer s) (connecting s) (unhandled s).

Definition set_nextTimer (x : positive) (s : State) : State :=
  mkState (ws s) (heartBeatInterval s) (logger s) (onDisconnectObservable s) (onTopicMessageObservable s) (onIslandChangeObservable s) (sockets s) (timers s) x (connecting s) (unhandled s).

Definition set_connecting (x : nat) (s : State) : State :=
  mkState (ws s) (heartBeatInterval s) (logger s) (onDisconnectObservable s) (onTopicMessageObservable s) (onIslandChangeObservable s) (sockets s) (timers s) (nextTimer s) x (unhandled s).

Definition set_unhandled (x : list JsError) (s : State) : State :=
  mkState (ws s) (heartBeatInterval s) (logger s) (onDisconnectObservable s) (onTopicMessageObservable s) (onIslandChangeObservable s) (sockets s) (timers s) (nextTimer s) (connecting s) x.
Definition init : State := mkState None None [] 0 [] [] [] [] 1%positive 0 [].

Definition log (l : Level) (t : string) (s : State) : State :=
  set_logger (logger s ++ [mkLog l t]) s.

(** Apply [f] to the socket object [i]. *)
Definition on_socket (i : nat) (f : WebSocket -> WebSocket) (s : State) : State :=
  match sockets s !! i with
  | Some w => set_sockets (<[i := f w]> (sockets s)) s
  | None => s
  end.

(** [setInterval(callback, 10000)]: a fresh handle, now running. *)
Definition setInterval (s : State) : positive * State :=
  (nextTimer s,
   set_nextTimer (Pos.succ (nextTimer s)) (set_timers (nextTimer s :: timers s) s)).

(** [clearInterval(handle)]: nothing happens for a handle that is not running. *)
Definition clearInterval (t : positive) (s : State) : State :=
  set_timers (filter (fun t' => t' <> t) (timers s)) s.

(** A promise that is dropped: its rejection reaches no handler. *)
Definition floating {A} (m : M State A) : M State unit :=
  fun s => match m s with
           | (Ok _, s') => (Ok tt, s')
           | (Throw e, s') => (Ok tt, set_unhandled (unhandled s' ++ [e]) s')
           end.

(** [promise.catch(this.logger.error)] *)
Definition caught {A} (m : M State A) : State -> State :=
  fun s => match m s with
           | (Ok _, s') => s'
           | (Throw e, s') => log LError (errorMessage e) s'
           end.

Definition transportClosed : JsError := Error "This transport is closed".

(** [async send(data)] *)
Definition send (msg : Uint8Array) : M State unit :=
  fun s =>
    match ws s with
    | None => (Throw transportClosed, s)
    | Some i =>
        match sockets s !! i with
        | Some w => (fst (WS.send msg w), set_sockets (<[i := snd (WS.send msg w)]> (sockets s)) s)
        | None => (Throw InvalidStateError, s)
        end
    end.

(** [async disconnect()] *)
Definition disconnect : M State unit :=
  fun s =>
    let s1 := match heartBeatInterval s with
              | Some t => clearInterval t s
              | None => s
              end in
    match ws s1 with
    | Some i =>
        (Ok tt,
         set_onDisconnectObservable (S (onDisconnectObservable s1))
           (set_ws None (on_socket i (fun w => WS.close (clear_handlers w)) s1)))
    | None => (Ok tt, s1)
    end.

Section Transport.

Context {number : Type} `{Proto number}.

(** The constructor's [url]. *)
Variable bffUrl : string.

(** The frame of a heartbeat that carries a position. *)
Definition heartBeatFrame (position : Position3D number) (now1 now2 : Z) : Uint8Array :=
  let '(x, y, z) := position in
  serializeHeartBeat
    (mkHeartBeat MessageType.HEARTBEAT now1
       (serializeWorldPosition (mkWorldPosition WORLD_POSITION now2 x y z))).

(** [async sendHeartBeat()]: [position] is what [config.selfPosition()]
    returns, [now1] and [now2] what the two [Date.now()] return. *)
Definition sendHeartBeat (position : option (Position3D number)) (now1 now2 : Z)
  : M State unit :=
  match position with
  | Some (x, y, z) =>
      let data := mkWorldPosition WORLD_POSITION now2 x y z in
      let msg := mkHeartBeat MessageType.HEARTBEAT now1 (serializeWorldPosition data) in
      send (serializeHeartBeat msg)
  | None => mret tt
  end.

(** [sendTopicMessage(topic, body)], [encodedBody] being [body.serializeBinary()]. *)
Definition sendTopicMessage (topic : string) (encodedBody : Uint8Array) : M State unit :=
  floating (send (serializeTopic (mkTopic MessageType.TOPIC topic encodedBody))).

(** [async setTopics(rawTopics)] *)
Definition setTopics (rawTopics : list string) : M State unit :=
  floating (send (serializeSubscription
    (mkSubscription MessageType.SUBSCRIPTION
       (String.list_byte_of_string (String.concat " " rawTopics))))).

(** [async onWsMessage(event)] *)
Definition onWsMessage (msg : Uint8Array) : M State unit :=
  match getType msg with
  | None => modify (log LError "cannot deserialize message header")
  | Some MessageType.UNKNOWN_MESSAGE_TYPE => modify (log LLog "unsupported message")
  | Some MessageType.OPEN =>
      modify (log LLog "open message received");;
      match getPayload msg with
      | None => modify (log LError "cannot process open message")
      | Some payload =>
          floating (send (serializeValidation
            (mkValidation MessageType.VALIDATION (signedPayload payload))))
      end
  | Some MessageType.VALIDATION_OK => modify (log LLog "validation ok")
  | Some MessageType.VALIDATION_FAILURE =>
      modify (log LLog "validation failure, disconnecting bff");;
      floating disconnect
  | Some MessageType.TOPIC =>
      match getTopicData msg with
      | None => modify (log LError "cannot process topic message")
      | Some d =>
          modify (fun s => set_onTopicMessageObservable (onTopicMessageObservable s ++ [d]) s)
      end
  | Some MessageType.ISLAND_CHANGES =>
      match getConnStr msg with
      | None => modify (log LError "cannot process topic message")
      | Some islandConnStr =>
          modify (fun s => set_onIslandChangeObservable
                             (onIslandChangeObservable s ++ [islandConnStr]) s)
      end
  | Some _ => modify (log LLog "ignoring msgType")
  end.

(** A frame whose header does not decode, or whose header names a type
    whose body the transport decodes and that body does not decode. *)
Definition malformed (msg : Uint8Array) : Prop :=
  getType msg = None
  \/ (getType msg = Some MessageType.OPEN /\ getPayload msg = None)
  \/ (getType msg = Some MessageType.TOPIC /\ getTopicData msg = None)
  \/ (getType msg = Some MessageType.ISLAND_CHANGES /\ getConnStr msg = None).

(** [private connectWS()]: the promise it returns is already resolved. *)
Definition connectWS : M State unit :=
  fun s =>
    let fresh s1 :=
      let w := set_onmessage true (set_onclose true (set_onerror true
                 (WS.create bffUrl "comms"))) in
      (Ok tt, set_ws (Some (length (sockets s1))) (set_sockets (sockets s1 ++ [w]) s1)) in
    match ws s with
    | Some i =>
        match sockets s !! i with
        | Some w =>
            if decide (readyState w = WS.OPEN) then (Ok tt, s)
            else fresh (set_ws None (on_socket i WS.close s))
        | None => fresh (set_ws None s)
        end
    | None => fresh s
    end.

(** [async connect()] up to its [await]. *)
Definition connect_start : M State unit :=
  connectWS;;
  modify (fun s => set_connecting (S (connecting s)) s).

(** [async connect()] after its [await]. *)
Definition connect_resume : M State unit :=
  modify (fun s => let (t, s') := setInterval s in set_heartBeatInterval (Some t) s');;
  modify (log LLog "Connected").

(** [ws.onerror = (event) => ...]; its [reject(event)] finds the promise of
    [connectWS] resolved already. *)
Definition onerrorHandler (s : State) : State :=
  caught disconnect (log LError "socket error" s).

(** [ws.onclose = () => ...] *)
Definition oncloseHandler (s : State) : State := caught disconnect s.

(** [ws.onmessage = (event) => ...] *)
Definition onmessageHandler (msg : Uint8Array) (s : State) : State :=
  caught (onWsMessage msg) s.

(** What can happen to a transport: calls of its methods, the resumption of
    a suspended [connect], the interval timers, and the events of the
    sockets it has created. *)
Inductive Event :=
| CallConnect
| ConnectResumes
| CallDisconnect
| CallSend (msg : Uint8Array)
| CallSendTopicMessage (topic : string) (encodedBody : Uint8Array)
| CallSetTopics (rawTopics : list string)
| CallSendHeartBeat (position : option (Position3D number)) (now1 now2 : Z)
| TimerFires (t : positive) (position : option (Position3D number)) (now1 now2 : Z)
| SocketOpened (i : nat)
| SocketClosing (i : nat)
| SocketMessage (i : nat) (msg : Uint8Array)
| SocketError (i : nat)
| SocketClosed (i : nat).

(** One event, run to completion. A socket delivers messages only while
    OPEN, turns CLOSED when its error or close event fires, and fires nothing
    once CLOSED; an event whose handler slot is [null] runs no code; a timer
    that is not running does not fire. *)
Definition step (s : State) (ev : Event) : State :=
  match ev with
  | CallConnect => exec connect_start s
  | ConnectResumes =>
      match connecting s with
      | S n => exec connect_resume (set_connecting n s)
      | O => s
      end
  | CallDisconnect => exec disconnect s
  | CallSend msg => exec (send msg) s
  | CallSendTopicMessage topic body => exec (sendTopicMessage topic body) s
  | CallSetTopics rawTopics => exec (setTopics rawTopics) s
  | CallSendHeartBeat position now1 now2 => exec (sendHeartBeat position now1 now2) s
  | TimerFires t position now1 now2 =>
      if bool_decide (t ∈ timers s)
      then exec (floating (sendHeartBeat position now1 now2)) s
      else s
  | SocketOpened i =>
      on_socket i (fun w => if decide (readyState w = CONNECTING)
                            then set_readyState WS.OPEN w else w) s
  | SocketClosing i =>
      on_socket i (fun w => if decide (readyState w = WS.OPEN)
                            then set_readyState CLOSING w else w) s
  | SocketMessage i msg =>
      match sockets s !! i with
      | Some w => if bool_decide (readyState w = WS.OPEN) && onmessage w
                  then onmessageHandler msg s else s
      | None => s
      end
  | SocketError i =>
      match sockets s !! i with
      | Some w => if decide (readyState w = CLOSED) then s
                  else let s1 := on_socket i (set_readyState CLOSED) s in
                       if onerror w then onerrorHandler s1 else s1
      | None => s
      end
  | SocketClosed i =>
      match sockets s !! i with
      | Some w => if decide (readyState w = CLOSED) then s
                  else let s1 := on_socket i (set_readyState CLOSED) s in
                       if onclose w then oncloseHandler s1 else s1
      | None => s
      end
  end.

Definition run (s : State) (tr : list Event) : State := fold_left step tr s.

End Transport.

(** *** The sockets of a reachable transport *)

(** What holds of the socket object [j] when [this.ws] is [cur]: the socket
    the transport holds has its three handlers and is not CLOSED; every other
    socket it has created is CLOSING or CLOSED. *)
Definition socket_ok (cur : option nat) (j : nat) (w : WebSocket) : Prop :=
  if decide (cur = Some j)
  then onmessage w = true /\ onerror w = true /\ onclose w = true
       /\ readyState w <> CLOSED
  else readyState w = CLOSING \/ readyState w = CLOSED.

(** Every socket but the held one is CLOSING or CLOSED. *)
Definition others_closing (s : State) : Prop :=
  forall j w, sockets s !! j = Some w -> ws s <> Some j ->
              readyState w = CLOSING \/ readyState w = CLOSED.

Definition wf (s : State) : Prop :=
  (forall j w, sockets s !! j = Some w -> socket_ok (ws s) j w)
  /\ (forall i, ws s = Some i -> i < length (sockets s)).

(** A toy wire format for running the transport: the first byte of a frame
    is its type; a body needs one more byte at least to decode. *)
Definition toyType (b : Byte.byte) : MessageType.t :=
  match Byte.to_N b with
  | 0%N => MessageType.UNKNOWN_MESSAGE_TYPE
  | 1%N => MessageType.OPEN
  | 2%N => MessageType.VALIDATION
  | 3%N => MessageType.VALIDATION_OK
  | 4%N => MessageType.VALIDATION_FAILURE
  | 5%N => MessageType.HEARTBEAT
  | 6%N => MessageType.SUBSCRIPTION
  | 7%N => MessageType.TOPIC
  | 8%N => MessageType.ISLAND_CHANGES
  | n => MessageType.OTHER (Z.of_N n)
  end.

Definition toyByte (z : Z) : Byte.byte :=
  match Byte.of_N (Z.to_N z) with Some b => b | None => Byte.x00 end.

Definition toyProto : Proto Z := {|
  getType msg := match msg with b :: _ => Some (toyType b) | [] => None end;
  getPayload msg := match msg with _ :: _ :: _ => Some "challenge" | _ => None end;
  getTopicData msg :=
    match msg with _ :: _ :: body => Some (mkTopicData "peer" body) | _ => None end;
  getConnStr msg := match msg with _ :: _ :: _ => Some "island" | _ => None end;
  serializeWorldPosition d :=
    [toyByte (positionX d); toyByte (positionY d); toyByte (positionZ d)];
  serializeHeartBeat m := Byte.x05 :: heartBeatData m;
  serializeTopic m := Byte.x07 :: topicBody m;
  serializeSubscription m := Byte.x06 :: subscriptionTopics m;
  serializeValidation m := [Byte.x02];
  signedPayload payload := payload
|}.

Definition bffUrl0 : string := "wss://explorer-bff.example.org/ws-bff".

(** A transport that has connected and whose socket has opened. *)
Definition established : list (Event (number := Z)) :=
  [CallConnect; ConnectResumes; SocketOpened 0].

Definition validationFailure : Uint8Array := [Byte.x04].

(** The socket of [established]. *)
Definition openSocket : WebSocket :=
  set_readyState WS.OPEN
    (set_onmessage true (set_onclose true (set_onerror true
       (WS.create bffUrl0 "comms")))).

(** The timer handles of a reachable transport (see
    [BFFMore.timers_fresh_run]): every running timer and the handle the
    transport keeps were returned by [setInterval] before. *)
Definition timers_fresh (s : State) : Prop :=
  (forall t, t ∈ timers s -> (t < nextTimer s)%positive)
  /\ (forall t, heartBeatInterval s = Some t -> (t < nextTimer s)%positive).

(** [1] when the transport holds a socket. *)
Definition held (s : State) : nat :=
  match ws s with Some _ => 1 | None => 0 end.

(** What teardown and [connect] work on: the socket reference, the heartbeat
    handle, the running timers, the next handle, the number of disconnect
    notifications and the number of sockets created. *)
Definition core (s : State)
  : option nat * option positive * list positive * positive * nat * nat :=
  (ws s, heartBeatInterval s, timers s, nextTimer s, onDisconnectObservable s,
   length (sockets s)).

(** The state and the handler slots of a socket, without its wire. *)
Definition status (w : WebSocket) : ReadyState * bool * bool * bool :=
  (readyState w, onmessage w, onerror w, onclose w).

(** The timers left running by [disconnect]. *)
Definition afterClear (s : State) : list positive :=
  match heartBeatInterval s with
  | Some t => filter (fun t' => t' <> t) (timers s)
  | None => timers s
  end.

(** Two calls of [connect] on one transport: the second starts a second
    interval. *)
Definition connectedTwice : list (Event (number := Z)) :=
  [CallConnect; ConnectResumes; SocketOpened 0; CallConnect; ConnectResumes].

(** A validation failure on a transport on which [connect] was called
    twice. *)
Definition failureAfterTwoConnects : list (Event (number := Z)) :=
  connectedTwice ++ [SocketMessage 0 validationFailure].

(** [connect] called again while the first socket is still connecting. *)
Definition reconnectedEarly : list (Event (number := Z)) :=
  [CallConnect; CallConnect].

Section Frames.

Context {number : Type} `{Proto number}.

(** The frame an event may make the transport transmit: what a caller
    hands to [send], the TOPIC frame of [sendTopicMessage], the SUBSCRIPTION
    frame of [setTopics], the HEARTBEAT frame of a heartbeat that has a
    position, and the VALIDATION reply to an OPEN frame whose payload
    decodes. *)
Definition emits (ev : Event) (frame : Uint8Array) : Prop :=
  match ev with
  | CallSend msg => frame = msg
  | CallSendTopicMessage topic encodedBody =>
      frame = serializeTopic (mkTopic MessageType.TOPIC topic encodedBody)
  | CallSetTopics rawTopics =>
      frame = serializeSubscription
                (mkSubscription MessageType.SUBSCRIPTION
                   (String.list_byte_of_string (String.concat " " rawTopics)))
  | CallSendHeartBeat (Some position) now1 now2
  | TimerFires _ (Some position) now1 now2 =>
      frame = heartBeatFrame position now1 now2
  | SocketMessage _ msg =>
      getType msg = Some MessageType.OPEN
      /\ exists payload,
           getPayload msg = Some payload
           /\ frame = serializeValidation
                        (mkValidation MessageType.VALIDATION (signedPayload payload))
  | _ => False
  end.

End Frames.

End BFF.

(** * Properties *)

(** ** Realm change detection *)

Module SagasProps.

Import Sagas.

(** [sameRealm] decides equality of the server names alone: its hostname
    conjunct compares a field with itself. *)
Lemma sameRealm_iff_serverName realm1 realm2 :
  sameRealm realm1 realm2 = true <-> serverName realm1 = serverName realm2.
Proof.
  unfold sameRealm. rewrite String.eqb_refl, andb_true_r.
  apply String.eqb_eq.
Qed.

Lemma changeRealm_same_no_reconnect f realm1 realm2 :
  sameRealm realm1 realm2 = true ->
  reconnects (changeRealm f (Some realm1) realm2) = false.
Proof. intros Hs. unfold changeRealm. rewrite Hs. reflexivity. Qed.

Lemma changeRealm_different_reconnects f realm1 realm2 :
  sameRealm realm1 realm2 = false ->
  changeRealm f (Some realm1) realm2 =
    [LogInfo ("Changing realm from " +:+ f realm1 +:+ " to " +:+ f realm2);
     Put (setCatalystRealm realm2)].
Proof. intros Hs. unfold changeRealm. rewrite Hs. reflexivity. Qed.

(** C1, on the code: two realms with one server name and two hostnames do
    not agree on both identity fields, yet [sameRealm] answers true and
    [changeRealm] puts no [setCatalystRealm]. *)
Theorem sameRealm_hostname_self_comparison :
  sameRealm peerA peerB = true
  /\ hostname peerA <> hostname peerB
  /\ ~ sameIdentity peerA peerB
  /\ forall f, reconnects (changeRealm f (Some peerA) peerB) = false.
Proof.
  split; [reflexivity |]. split; [discriminate |]. split.
  - intros [_ Hh]. discriminate Hh.
  - intros f. apply changeRealm_same_no_reconnect. reflexivity.
Qed.

End SagasProps.

(** ** The BFF address *)

Module CommsUrlProps.

Import Sagas CommsUrl.

Lemma substring_all s : String.substring 0 (String.length s) s = s.
Proof. induction s as [|c s IH]; simpl; [reflexivity | now rewrite IH]. Qed.

Lemma prefix_app p rest : String.prefix p (p +:+ rest) = true.
Proof.
  induction p as [|c p IH]; simpl; [now destruct rest |].
  destruct (Ascii.ascii_dec c c); [exact IH | congruence].
Qed.

Lemma substring_app p rest :
  String.substring (String.length p)
    (String.length (p +:+ rest) - String.length p) (p +:+ rest) = rest.
Proof.
  induction p as [|c p IH]; simpl.
  - rewrite Nat.sub_0_r. apply substring_all.
  - exact IH.
Qed.

Lemma replacePrefix_app p r rest : replacePrefix p r (p +:+ rest) = r +:+ rest.
Proof.
  unfold replacePrefix, startsWith.
  now rewrite prefix_app, substring_app.
Qed.

Lemma httpToWs_https rest : httpToWs ("https://" +:+ rest) = "wss://" +:+ rest.
Proof.
  unfold httpToWs. rewrite replacePrefix_app. reflexivity.
Qed.

Lemma httpToWs_http rest : httpToWs ("http://" +:+ rest) = "ws://" +:+ rest.
Proof.
  unfold httpToWs.
  replace (replacePrefix "https://" "wss://" ("http://" +:+ rest))
    with ("http://" +:+ rest) by reflexivity.
  apply replacePrefix_app.
Qed.

Lemma httpToWs_other u :
  startsWith "https://" u = false -> startsWith "http://" u = false ->
  httpToWs u = u.
Proof.
  intros H1 H2. unfold httpToWs, replacePrefix. rewrite H1, H2. reflexivity.
Qed.

Lemma substring_0_app p b : String.substring 0 (String.length p) (p +:+ b) = p.
Proof.
  induction p as [|c p IH]; simpl; [by destruct b | by rewrite IH].
Qed.

Lemma substring_at_app a p b :
  String.substring (String.length a) (String.length p) (a +:+ p +:+ b) = p.
Proof.
  induction a as [|c a IH]; simpl; [exact (substring_0_app p b) | exact IH].
Qed.

Lemma substring_0_inv p s :
  String.substring 0 (String.length p) s = p -> exists b, s = p +:+ b.
Proof.
  revert s. induction p as [|c p IH]; intros s; simpl.
  - intros _. by exists s.
  - destruct s as [|c' s]; [discriminate |]. intros [= -> Hs].
    destruct (IH s Hs) as [b ->]. by exists b.
Qed.

Lemma substring_inv m p s :
  p <> "" -> String.substring m (String.length p) s = p ->
  exists a b, s = a +:+ p +:+ b.
Proof.
  intros Hne. revert s. induction m as [|m IH]; intros s Hs.
  - destruct (substring_0_inv p s Hs) as [b ->]. by exists "", b.
  - destruct s as [|c s]; simpl in Hs.
    + destruct p; [contradiction | discriminate].
    + destruct (IH s Hs) as (a & b & ->). by exists (String c a), b.
Qed.

(** The test [hostname.match(/:\/\//)] succeeds exactly on the strings in
    which the separator occurs, wherever it stands. *)
Lemma hasSchemeSeparator_iff s :
  hasSchemeSeparator s = true <-> exists a b, s = a +:+ "://" +:+ b.
Proof.
  unfold hasSchemeSeparator. split.
  - destruct (String.index 0 "://" s) as [m|] eqn:Hi; [| discriminate]. intros _.
    apply String.index_correct1 in Hi. by apply (substring_inv m "://" s).
  - intros (a & b & ->).
    destruct (String.index 0 "://" (a +:+ "://" +:+ b)) as [m|] eqn:Hi; [done |].
    exfalso.
    apply (String.index_correct3 0 (String.length a) "://" _ Hi); [done | lia |].
    apply (substring_at_app a "://" b).
Qed.

Section Resolve.

Variable URL_toString : string -> string -> option string.

Lemma resolve_not_v4 realm :
  protocol realm <> "v4" -> resolveCommsV4Url URL_toString realm = Ok None.
Proof.
  intros Hp. unfold resolveCommsV4Url.
  destruct (String.eqb_spec (protocol realm) "v4"); [contradiction | reflexivity].
Qed.

Lemma resolve_other realm :
  protocol realm = "v4" ->
  hostname realm <> "local" -> hostname realm <> "remote" ->
  resolveCommsV4Url URL_toString realm =
    match URL_toString "bff/ws-bff"
            (if hasSchemeSeparator (hostname realm)
             then hostname realm else "https://" +:+ hostname realm) with
    | Some server => Ok (Some (httpToWs server))
    | None => Throw (TypeError "Invalid URL")
    end.
Proof.
  intros Hp Hl Hr. unfold resolveCommsV4Url. rewrite Hp. simpl.
  destruct (String.eqb_spec (hostname realm) "local"); [contradiction |].
  destruct (String.eqb_spec (hostname realm) "remote"); [contradiction |].
  reflexivity.
Qed.

(** C9: the two aliases resolve to the two fixed addresses.  Any other v4
    hostname in which the separator [://] occurs is taken as it is, and one
    in which it does not occur gets [https://] put in front; the result is
    resolved with the relative path [bff/ws-bff] by the platform's [URL]
    (the resolver throws when [URL] does), and of the resolved address a
    leading [https://] becomes [wss://], a leading [http://] becomes
    [ws://], and any other address is returned as it is. *)
Theorem resolveCommsV4Url_spec :
  (forall sn, resolveCommsV4Url URL_toString (mkRealm "v4" "local" sn)
              = Ok (Some "ws://127.0.0.1:5002/ws-bff"))
  /\ (forall sn, resolveCommsV4Url URL_toString (mkRealm "v4" "remote" sn)
                 = Ok (Some "wss://explorer-bff.decentraland.io/ws-bff"))
  /\ (forall realm,
        protocol realm = "v4" ->
        hostname realm <> "local" -> hostname realm <> "remote" ->
        ((exists a b, hostname realm = a +:+ "://" +:+ b) ->
         resolveCommsV4Url URL_toString realm =
           match URL_toString "bff/ws-bff" (hostname realm) with
           | Some server => Ok (Some (httpToWs server))
           | None => Throw (TypeError "Invalid URL")
           end)
        /\ ((forall a b, hostname realm <> a +:+ "://" +:+ b) ->
            resolveCommsV4Url URL_toString realm =
              match URL_toString "bff/ws-bff" ("https://" +:+ hostname realm) with
              | Some server => Ok (Some (httpToWs server))
              | None => Throw (TypeError "Invalid URL")
              end))
  /\ (forall rest, httpToWs ("https://" +:+ rest) = "wss://" +:+ rest)
  /\ (forall rest, httpToWs ("http://" +:+ rest) = "ws://" +:+ rest)
  /\ (forall u, (forall rest, u <> "https://" +:+ rest) ->
                (forall rest, u <> "http://" +:+ rest) -> httpToWs u = u).
Proof.
  split; [reflexivity |]. split; [reflexivity |]. split.
  - intros realm Hp Hl Hr. rewrite (resolve_other realm Hp Hl Hr). split.
    + intros Hsep. apply hasSchemeSeparator_iff in Hsep. by rewrite Hsep.
    + intros Hnone.
      destruct (hasSchemeSeparator (hostname realm)) eqn:Hsep; [| done].
      apply hasSchemeSeparator_iff in Hsep as (a & b & Hab).
      by destruct (Hnone a b).
  - split; [apply httpToWs_https |]. split; [apply httpToWs_http |].
    intros u Hs Hp. apply httpToWs_other.
    + destruct (startsWith "https://" u) eqn:Hpre; [| done].
      destruct (substring_0_inv "https://" u) as [rest Hrest]; [| by destruct (Hs rest)].
      unfold startsWith in Hpre. apply String.prefix_correct in Hpre. exact Hpre.
    + destruct (startsWith "http://" u) eqn:Hpre; [| done].
      destruct (substring_0_inv "http://" u) as [rest Hrest]; [| by destruct (Hp rest)].
      unfold startsWith in Hpre. apply String.prefix_correct in Hpre. exact Hpre.
Qed.

End Resolve.

(** A hostname without a scheme gets [https://], so [wss://]; a hostname
    that names [http://] keeps it, so [ws://]. *)
Lemma resolveCommsV4Url_spec_witness :
  resolveCommsV4Url originJoin (mkRealm "v4" "peer.decentraland.org" "dg")
  = Ok (Some "wss://peer.decentraland.org/bff/ws-bff")
  /\ resolveCommsV4Url originJoin (mkRealm "v4" "http://peer.decentraland.org" "dg")
     = Ok (Some "ws://peer.decentraland.org/bff/ws-bff").
Proof.
  destruct (resolveCommsV4Url_spec originJoin) as (_ & _ & Hother & _).
  split.
  - destruct (Hother (mkRealm "v4" "peer.decentraland.org" "dg")) as [_ Hnone];
      [reflexivity | discriminate | discriminate |].
    rewrite Hnone; [reflexivity |].
    intros a b Heq.
    assert (Hsep : hasSchemeSeparator "peer.decentraland.org" = true)
      by (apply hasSchemeSeparator_iff; by exists a, b).
    discriminate Hsep.
  - destruct (Hother (mkRealm "v4" "http://peer.decentraland.org" "dg")) as [Hsep _];
      [reflexivity | discriminate | discriminate |].
    rewrite Hsep; [reflexivity |].
    by exists "http", "peer.decentraland.org".
Defined.

End CommsUrlProps.

(** ** The close-peers scoring link *)

Module ScoringProps.

Import Scoring.

Lemma closeUsersScore_known {L} (params : ClosePeersScoreParameters L)
  parcel c parcels :
  usersParcels c = Some parcels -> parcels <> [] ->
  closeUsersScore params parcel c
  = (baseScore params
     + countParcelsCloseTo parcel parcels (closePeersDistance params))%Z.
Proof.
  intros Hp Hne. unfold closeUsersScore. rewrite Hp.
  destruct parcels; [contradiction | reflexivity].
Qed.

Lemma closeUsersScore_unknown {L} (params : ClosePeersScoreParameters L) parcel c :
  usersParcels c = None \/ usersParcels c = Some [] ->
  closeUsersScore params parcel c = 0%Z.
Proof.
  intros [Hp | Hp]; unfold closeUsersScore; rewrite Hp; reflexivity.
Qed.

Section Select.

Variable score : Candidate -> Z.
Variable margin : Z.
Hypothesis margin_pos : (0 < margin)%Z.

#[local] Instance byScoreDesc_trans : Transitive (byScoreDesc score).
Proof. unfold byScoreDesc. intros a b c ? ?. lia. Qed.

#[local] Instance byScoreDesc_total : Total (byScoreDesc score).
Proof. unfold byScoreDesc. intros a b. lia. Qed.

Lemma sorted_head_max c l :
  StronglySorted (byScoreDesc score) (c :: l) ->
  Forall (fun c' => (score c' <= score c)%Z) l.
Proof. intros Hs. inversion Hs; subst. assumption. Qed.

Lemma selectFirstByScore_sound context c :
  selectFirstByScore context score margin = Some c ->
  wins score margin (picked context) c.
Proof.
  unfold selectFirstByScore, wins. intros Hsel.
  pose proof (merge_sort_Permutation (byScoreDesc score) (picked context)) as Hperm.
  pose proof (StronglySorted_merge_sort (byScoreDesc score) (picked context)) as Hsort.
  destruct (merge_sort (byScoreDesc score) (picked context)) as [|c1 [|c2 rest]] eqn:Hm.
  - discriminate.
  - injection Hsel as <-. exists []. split; [by symmetry | constructor].
  - destruct (Z.ltb_spec (score c1 - score c2) margin) as [Hlt | Hge]; [discriminate |].
    injection Hsel as <-. exists (c2 :: rest). split; [by symmetry |].
    inversion Hsort as [|? ? Hs2 Hall]; subst.
    apply sorted_head_max in Hs2.
    constructor; [lia |].
    eapply Forall_impl; [exact Hs2 |]. simpl. intros c' Hc'. lia.
Qed.

Lemma selectFirstByScore_complete context c :
  wins score margin (picked context) c ->
  selectFirstByScore context score margin = Some c.
Proof.
  unfold selectFirstByScore. intros (others & Hperm & Hall).
  pose proof (merge_sort_Permutation (byScoreDesc score) (picked context)) as Hperm'.
  pose proof (StronglySorted_merge_sort (byScoreDesc score) (picked context)) as Hsort.
  assert (Hp : merge_sort (byScoreDesc score) (picked context) ≡ₚ c :: others)
    by (etrans; eassumption).
  clear Hperm Hperm'. rename Hp into Hperm'.
  destruct (merge_sort (byScoreDesc score) (picked context)) as [|c1 tl] eqn:Hm.
  - apply Permutation_nil_cons in Hperm'. contradiction.
  - pose proof (sorted_head_max _ _ Hsort) as Hmax.
    rewrite Forall_forall in Hall, Hmax.
    assert (Hin1 : c1 ∈ c :: others) by (rewrite <- Hperm'; left).
    assert (Hc1 : c1 = c).
    { apply elem_of_cons in Hin1 as [-> | Hin1]; [reflexivity |].
      assert (Hc : c ∈ c1 :: tl) by (rewrite Hperm'; left).
      apply elem_of_cons in Hc as [-> | Hc]; [reflexivity |].
      specialize (Hall c1 Hin1). specialize (Hmax c Hc). lia. }
    subst c1. apply Permutation_cons_inv in Hperm'.
    destruct tl as [|c2 rest]; [reflexivity |].
    assert (Hin2 : c2 ∈ others) by (rewrite <- Hperm'; left).
    specialize (Hall c2 Hin2).
    destruct (Z.ltb_spec (score c - score c2) margin) as [Hlt | Hge]; [lia | reflexivity].
Qed.

End Select.

Section Link.

Context {L : Type}.
Variable defaultScoreAddons : L -> Z -> (Candidate -> Z) -> Candidate -> Z.
Variable params : ClosePeersScoreParameters L.

(** C7: the raw score of the link is [baseScore] plus the count of close
    parcels for a candidate with a known position and 0 for the others; the
    link ranks by what [defaultScoreAddons] makes of this raw score and
    returns a candidate exactly when that adjusted score beats every other
    candidate's (so the runner-up's) by the margin of 10, and no decision
    otherwise. *)
Theorem closePeersScoreLink_spec context :
  (forall c parcels,
      usersParcels c = Some parcels -> parcels <> [] ->
      closeUsersScore params (userParcel context) c
      = (baseScore params
         + countParcelsCloseTo (userParcel context) parcels
             (closePeersDistance params))%Z)
  /\ (forall c,
        usersParcels c = None \/ usersParcels c = Some [] ->
        closeUsersScore params (userParcel context) c = 0%Z)
  /\ (forall c,
        pick defaultScoreAddons params context = Some c <->
        wins (defaultScoreAddons (latencyDeductionsParameters params)
                (baseScore params) (closeUsersScore params (userParcel context)))
             10 (picked context) c)
  /\ ((forall c,
         ~ wins (defaultScoreAddons (latencyDeductionsParameters params)
                   (baseScore params) (closeUsersScore params (userParcel context)))
                10 (picked context) c) ->
      pick defaultScoreAddons params context = None).
Proof.
  split; [intros; by apply closeUsersScore_known |].
  split; [intros; by apply closeUsersScore_unknown |].
  split.
  - intros c. unfold pick, adjustedScore. split; [apply selectFirstByScore_sound |].
    apply selectFirstByScore_complete. lia.
  - intros Hnone. unfold pick, adjustedScore.
    destruct (selectFirstByScore context _ 10) as [c|] eqn:Hsel; [| reflexivity].
    apply selectFirstByScore_sound in Hsel. exfalso. by eapply Hnone.
Qed.

End Link.

Example closeUsersScore_busy :
  closeUsersScore exampleParams (mkParcel 0 0) busy = 40%Z
  /\ closeUsersScore exampleParams (mkParcel 0 0) quiet = 25%Z
  /\ closeUsersScore exampleParams (mkParcel 0 0) empty = 0%Z.
Proof. repeat split; reflexivity. Qed.

Example pick_busy : pick noAddons exampleParams exampleContext = Some busy.
Proof. reflexivity. Qed.

(** Without a deduction the link picks busy (40 against 25 and 0); with 100
    deducted from busy it picks quiet (25 against 0 and -60). *)
Lemma closePeersScoreLink_spec_witness :
  pick noAddons exampleParams exampleContext = Some busy
  /\ pick slowBusy exampleParams exampleContext = Some quiet.
Proof.
  split.
  - destruct (closePeersScoreLink_spec noAddons exampleParams exampleContext)
      as (_ & _ & Hpick & _).
    apply Hpick. exists [quiet; empty]. split.
    + apply Permutation_sym. apply (Permutation_cons_append [quiet; empty] busy).
    + repeat constructor; by vm_compute.
  - destruct (closePeersScoreLink_spec slowBusy exampleParams exampleContext)
      as (_ & _ & Hpick & _).
    apply Hpick. exists [empty; busy]. split; [done |].
    repeat constructor; by vm_compute.
Defined.

End ScoringProps.

(** ** The broker transport *)

Module BrokerProps.

Import WS Broker.

Section Facts.

Context `{Proto}.
Variable brokerUrl : string.

#[local] Abbreviation step := (Broker.step brokerUrl).
#[local] Abbreviation run := (Broker.run brokerUrl).

Lemma run_app s tr1 tr2 : run s (tr1 ++ tr2) = run (run s tr1) tr2.
Proof. unfold Broker.run. apply fold_left_app. Qed.

Lemma run_snoc s tr ev : run s (tr ++ [ev]) = step (run s tr) ev.
Proof. rewrite run_app. reflexivity. Qed.

Lemma on_socket_connected i f s : connected (on_socket i f s) = connected s.
Proof. unfold on_socket. by destruct (sockets s !! i). Qed.

Lemma on_socket_ws i f s : ws (on_socket i f s) = ws s.
Proof. unfold on_socket. by destruct (sockets s !! i). Qed.

Lemma incrementRecv_fields n s :
  connected (incrementRecv n s) = connected s
  /\ ws (incrementRecv n s) = ws s
  /\ sockets (incrementRecv n s) = sockets s.
Proof. unfold incrementRecv. by destruct (stats s). Qed.

Lemma dispatch_fields s :
  connected (dispatchTopicDurationStart s) = connected s
  /\ ws (dispatchTopicDurationStart s) = ws s
  /\ sockets (dispatchTopicDurationStart s) = sockets s.
Proof. unfold dispatchTopicDurationStart. by destruct (stats s). Qed.

(** [sendCoordinatorMessage] either throws and changes nothing, or
    transmits on the open socket [this.ws] refers to. *)
Lemma sendCoordinatorMessage_cases msg s :
  sendCoordinatorMessage msg s = (Throw notReady, s)
  \/ exists j w,
       ws s = Some j /\ sockets s !! j = Some w /\ readyState w = OPEN
       /\ sendCoordinatorMessage msg s
          = (Ok tt, set_sockets (<[j := transmit msg w]> (sockets s)) s).
Proof.
  unfold sendCoordinatorMessage.
  destruct (ws s) as [j|] eqn:Hws; [| by left].
  destruct (sockets s !! j) as [w|] eqn:Hw; [| by left].
  destruct (decide (readyState w = OPEN)) as [Ho|]; [| by left].
  right. exists j, w. repeat split; try done.
  unfold WS.send. by rewrite Ho.
Qed.


(** What one event does to the [connected] future: nothing, or the
    resolution that ends the handling of a WELCOME whose CONNECT reply went
    out on the open socket. *)
Lemma step_connected s ev :
  connected (step s ev) = connected s
  \/ exists i msg a j w,
       ev = SocketMessage i msg
       /\ getType msg = Some WELCOME /\ getAlias msg = Some a
       /\ ws s = Some j /\ sockets s !! j = Some w /\ readyState w = OPEN
       /\ connected (step s ev) = resolve (connected s)
       /\ alias (step s ev) = Some a
       /\ ws (step s ev) = Some j
       /\ sockets (step s ev) !! j
          = Some (transmit (serializeConnect (mkConnect CONNECT 0 a)) w).
Proof.
  destruct ev as [| msg r | | i | i | i msg | i | i]; simpl.
  - left. unfold exec, connect, connectWS.
    destruct (ws s); simpl; [reflexivity |]. reflexivity.
  - left. unfold exec, send.
    destruct (sendCoordinatorMessage_cases msg s) as [-> | (j & w & _ & _ & _ & ->)];
      reflexivity.
  - left. unfold exec, disconnect. destruct (ws s); simpl; [| reflexivity].
    apply on_socket_connected.
  - left. apply on_socket_connected.
  - left. apply on_socket_connected.
  - destruct (sockets s !! i) as [wi|] eqn:Hwi; [| by left].
    destruct (bool_decide (readyState wi = OPEN) && onmessage wi); [| by left].
    unfold onmessageHandler, onWsMessage.
    destruct (getType msg) as [[| | | | |tag]|] eqn:Hty; simpl; try by left.
    + destruct (getAlias msg) as [a|] eqn:Hal; simpl.
      * unfold mbind, M_bind, bind, modify. simpl.
        set (s1 := log LInfo "my alias is" (set_alias (Some a) (incrementRecv (length msg) s))).
        destruct (incrementRecv_fields (length msg) s) as (Hc & Hw & Hs).
        destruct (sendCoordinatorMessage_cases
                    (serializeConnect (mkConnect CONNECT 0 a)) s1)
          as [-> | (j & w & Hj & Hsock & Hopen & ->)].
        -- left. simpl. exact Hc.
        -- right. exists i, msg, a, j, w. subst s1. simpl in *.
           rewrite Hw in Hj. rewrite Hs in Hsock.
           repeat split; rewrite ?Hc, ?Hw, ?Hs; try done.
           apply list_lookup_insert_eq. by eapply lookup_lt_Some.
      * left. unfold mbind, M_bind, bind, modify. simpl.
        apply incrementRecv_fields.
    + left. unfold mbind, M_bind, bind, modify. simpl. apply incrementRecv_fields.
    + left. unfold mbind, M_bind, bind, modify. simpl. apply dispatch_fields.
    + left. unfold mbind, M_bind, bind, modify. simpl. apply dispatch_fields.
    + left. unfold mbind, M_bind, bind, modify. simpl. apply dispatch_fields.
    + left. unfold mbind, M_bind, bind, modify. simpl. apply incrementRecv_fields.
  - destruct (sockets s !! i) as [wi|]; [| by left].
    destruct (decide (readyState wi = CLOSED)); [by left |].
    left. destruct (onerror wi); simpl; apply on_socket_connected.
  - destruct (sockets s !! i) as [wi|]; [| by left].
    destruct (decide (readyState wi = CLOSED)); [by left |].
    left. apply on_socket_connected.
Qed.


Lemma socket_open_does_not_resolve s i :
  connected (step s (SocketOpened i)) = connected s.
Proof. apply on_socket_connected. Qed.

Lemma step_never_rejects s ev :
  ~ settled_with_error (connected s) ->
  ~ settled_with_error (connected (step s ev)).
Proof.
  intros Hs. destruct (step_connected s ev) as [-> | (?&?&?&?&?&_&_&_&_&_&_&->&_)];
    [exact Hs |].
  by destruct (connected s).
Qed.

Lemma run_never_rejects s tr :
  ~ settled_with_error (connected s) ->
  ~ settled_with_error (connected (run s tr)).
Proof.
  revert s. induction tr as [|ev tr IH]; intros s Hs; [exact Hs |].
  simpl. apply IH. by apply step_never_rejects.
Qed.

(** C3: in every run that starts with the future pending and ends with it
    resolved, the run has a first point of resolution; it is the handling of
    a WELCOME message that carried an alias, and in the state it leaves the
    CONNECT reply [from = alias, to = 0] is the last frame transmitted on the
    open socket the transport holds. *)
Theorem connected_only_after_welcome_and_connect s0 tr :
  connected s0 = Pending ->
  connected (run s0 tr) = Resolved ->
  exists pre i msg post a j w,
    tr = pre ++ SocketMessage i msg :: post
    /\ connected (run s0 pre) = Pending
    /\ getType msg = Some WELCOME /\ getAlias msg = Some a
    /\ ws (run s0 pre) = Some j
    /\ sockets (run s0 pre) !! j = Some w /\ readyState w = OPEN
    /\ connected (run s0 (pre ++ [SocketMessage i msg])) = Resolved
    /\ alias (run s0 (pre ++ [SocketMessage i msg])) = Some a
    /\ sockets (run s0 (pre ++ [SocketMessage i msg])) !! j
       = Some (transmit (serializeConnect (mkConnect CONNECT 0 a)) w).
Proof.
  intros H0. induction tr as [|ev tr IH] using rev_ind; intros Hres.
  - simpl in Hres. congruence.
  - rewrite run_snoc in Hres.
    destruct (connected (run s0 tr)) eqn:Hc.
    + destruct (step_connected (run s0 tr) ev)
        as [Heq | (i & msg & a & j & w & -> & Hty & Hal & Hj & Hw & Ho & Hcon & Ha & _ & Hs)].
      * congruence.
      * exists tr, i, msg, [], a, j, w. rewrite run_snoc.
        rewrite Hc in Hcon. by repeat split.
    + destruct (IH eq_refl)
        as (pre & i & msg & post & a & j & w & -> & Hrest).
      exists pre, i, msg, (post ++ [ev]), a, j, w.
      split.
      { rewrite <- app_assoc. reflexivity. }
      exact Hrest.
    + exfalso. apply (run_never_rejects s0 tr); [rewrite H0; simpl; tauto | rewrite Hc; exact I].
Qed.

(** [send] with the socket open transmits, whatever the alias is. *)
Lemma send_open_transmits s msg reliable i w :
  ws s = Some i -> sockets s !! i = Some w -> readyState w = OPEN ->
  send msg reliable s = (Ok tt, set_sockets (<[i := transmit msg w]> (sockets s)) s).
Proof.
  intros Hi Hw Ho. unfold send, sendCoordinatorMessage. rewrite Hi, Hw.
  destruct (decide (readyState w = OPEN)); [| contradiction].
  unfold WS.send. by rewrite Ho.
Qed.

(** C2, as amended: [send] throws its explicit error, and does nothing
    else, whenever the transport holds no socket or the socket it holds is
    not open; on an open socket it transmits the message, whether or not an
    alias has been assigned. *)
Theorem send_throws_unless_socket_open s msg reliable :
  ((ws s = None
    \/ exists i w, ws s = Some i /\ sockets s !! i = Some w /\ readyState w <> OPEN) ->
   send msg reliable s = (Throw notReady, s))
  /\ (forall i w,
        ws s = Some i -> sockets s !! i = Some w -> readyState w = OPEN ->
        send msg reliable s
        = (Ok tt, set_sockets (<[i := transmit msg w]> (sockets s)) s)).
Proof.
  split.
  - intros [Hn | (i & w & Hi & Hw & Hno)]; unfold send, sendCoordinatorMessage.
    + by rewrite Hn.
    + rewrite Hi, Hw. by destruct (decide (readyState w = OPEN)).
  - intros i w. apply send_open_transmits.
Qed.

Lemma step_ws_none s ev :
  ws s = None -> ev <> CallConnect -> ws (step s ev) = None.
Proof.
  intros Hn Hev.
  destruct ev as [| msg r | | i | i | i msg | i | i]; simpl; try done.
  - unfold exec, send, sendCoordinatorMessage. by rewrite Hn.
  - unfold exec, disconnect. by rewrite Hn.
  - by rewrite on_socket_ws.
  - by rewrite on_socket_ws.
  - destruct (sockets s !! i) as [wi|]; [| done].
    destruct (bool_decide (readyState wi = OPEN) && onmessage wi); [| done].
    unfold onmessageHandler, onWsMessage.
    destruct (incrementRecv_fields (length msg) s) as (_ & Hw & _).
    destruct (dispatch_fields s) as (_ & Hd & _).
    destruct (getType msg) as [[| | | | |tag]|]; simpl;
      unfold mbind, M_bind, bind, modify; simpl; try congruence.
    destruct (getAlias msg) as [a|]; simpl; [| congruence].
    unfold sendCoordinatorMessage. simpl. rewrite Hw, Hn. simpl. congruence.
  - destruct (sockets s !! i) as [wi|]; [| done].
    destruct (decide (readyState wi = CLOSED)); [done |].
    destruct (onerror wi); simpl; rewrite ?on_socket_ws; done.
  - destruct (sockets s !! i) as [wi|]; [| done].
    destruct (decide (readyState wi = CLOSED)); [done |].
    by rewrite on_socket_ws.
Qed.

(** Without a socket and without a new call of [connect], nothing settles
    the future. *)
Lemma run_without_connect s tr :
  ws s = None -> CallConnect ∉ tr ->
  ws (run s tr) = None /\ connected (run s tr) = connected s.
Proof.
  revert s. induction tr as [|ev tr IH]; intros s Hn Hnot; [done |].
  apply not_elem_of_cons in Hnot as [Hev Hnot].
  simpl. destruct (IH (step s ev)) as [Hw Hc]; [by apply step_ws_none | done |].
  split; [exact Hw |]. rewrite Hc.
  destruct (step_connected s ev) as [-> | (?&?&?&?&?&_&_&_&Hj&_)]; [done |].
  congruence.
Qed.

(** The socket-error handler only logs and clears the socket reference. *)
Lemma onerrorHandler_effect s :
  ws (onerrorHandler s) = None
  /\ logger (onerrorHandler s) = logger s ++ [mkLog LError "socket error"]
  /\ connected (onerrorHandler s) = connected s
  /\ alias (onerrorHandler s) = alias s
  /\ sockets (onerrorHandler s) = sockets s
  /\ onMessageObservable (onerrorHandler s) = onMessageObservable s.
Proof. by repeat split. Qed.

Lemma disconnect_connected s :
  connected (exec disconnect s) = connected s /\ ws (exec disconnect s) = None.
Proof.
  unfold exec, disconnect. destruct (ws s) eqn:Hw; simpl; [| done].
  split; [apply on_socket_connected | done].
Qed.

(** C10, as amended: a socket error whose handler runs, like a call of
    [disconnect], leaves the future as it was and the transport without a
    socket. When the future was pending, no later run rejects it, so no
    error reaches a caller that awaits [connect], and as long as [connect] is
    not called again that await does not complete. *)
Theorem error_or_disconnect_leaves_connect_pending s ev tr :
  breaks s ev ->
  connected (step s ev) = connected s
  /\ ws (step s ev) = None
  /\ (connected s = Pending ->
      (forall e, awaitConnected (run (step s ev) tr) <> Some (Throw e))
      /\ (CallConnect ∉ tr -> awaitConnected (run (step s ev) tr) = None)).
Proof.
  intros Hev.
  assert (Hstep : connected (step s ev) = connected s /\ ws (step s ev) = None).
  { destruct Hev as [-> | (i & w & -> & Hw & Hno & Hon)]; simpl.
    - apply disconnect_connected.
    - rewrite Hw. destruct (decide (readyState w = CLOSED)); [contradiction |].
      rewrite Hon. simpl. split; [| done]. by rewrite on_socket_connected. }
  destruct Hstep as [Hc Hw]. split; [exact Hc |]. split; [exact Hw |].
  intros Hp. rewrite Hp in Hc. split.
  - intros e He. apply (run_never_rejects (step s ev) tr); [by rewrite Hc; simpl; tauto |].
    unfold awaitConnected in He. by destruct (connected (run (step s ev) tr)).
  - intros Hnot. destruct (run_without_connect (step s ev) tr Hw Hnot) as [_ Hc'].
    unfold awaitConnected. by rewrite Hc', Hc.
Qed.

End Facts.

#[local] Existing Instance toyProto.

Example handshake_resolves :
  connected (run brokerUrl0 init handshake) = Resolved
  /\ connected (run brokerUrl0 init [CallConnect; SocketOpened 0]) = Pending.
Proof. split; reflexivity. Qed.

Lemma connected_only_after_welcome_and_connect_witness :
  exists pre i msg post a j w,
    handshake = pre ++ SocketMessage i msg :: post
    /\ connected (run brokerUrl0 init pre) = Pending
    /\ getType msg = Some WELCOME /\ getAlias msg = Some a
    /\ ws (run brokerUrl0 init pre) = Some j
    /\ sockets (run brokerUrl0 init pre) !! j = Some w
    /\ readyState w = OPEN
    /\ connected (run brokerUrl0 init (pre ++ [SocketMessage i msg]))
       = Resolved
    /\ alias (run brokerUrl0 init (pre ++ [SocketMessage i msg])) = Some a
    /\ sockets (run brokerUrl0 init (pre ++ [SocketMessage i msg])) !! j
       = Some (transmit (serializeConnect (mkConnect CONNECT 0 a)) w).
Proof.
  apply (connected_only_after_welcome_and_connect brokerUrl0 init handshake);
    reflexivity.
Defined.

(** C2, counterexample: with the socket open and no alias assigned yet
    (no WELCOME received, the future pending), [send] throws nothing and the
    frame goes out. *)
Lemma send_before_alias_is_transmitted :
  alias awaitingAlias = None
  /\ connected awaitingAlias = Pending
  /\ send [Byte.x2a] true awaitingAlias
     = (Ok tt, on_socket 0 (transmit [Byte.x2a]) awaitingAlias)
  /\ wire <$> sockets (exec (send [Byte.x2a] true) awaitingAlias) !! 0
     = Some [[Byte.x2a]].
Proof. repeat split. Qed.

Lemma send_throws_unless_socket_open_witness :
  send [Byte.x2a] true init = (Throw notReady, init)
  /\ send [Byte.x2a] true connectingState = (Throw notReady, connectingState).
Proof.
  split.
  - apply (send_throws_unless_socket_open init [Byte.x2a] true). left. reflexivity.
  - apply (send_throws_unless_socket_open connectingState [Byte.x2a] true). right.
    exists 0, (set_onmessage true (set_onerror true (WS.create brokerUrl0 "comms"))).
    repeat split. discriminate.
Defined.

(** C10, counterexample: the socket fails before any WELCOME while a caller
    awaits [connect]; [connect] is called again, the new socket opens and is
    welcomed, and the first caller's await completes. *)
Lemma await_completes_after_reconnect :
  awaitConnected (run brokerUrl0 init [CallConnect]) = None
  /\ awaitConnected (run brokerUrl0 init [CallConnect; SocketError 0]) = None
  /\ ws (run brokerUrl0 init [CallConnect; SocketError 0]) = None
  /\ awaitConnected
       (run brokerUrl0 init
          [CallConnect; SocketError 0;
           CallConnect; SocketOpened 1; SocketMessage 1 welcome7])
     = Some (Ok tt).
Proof. repeat split. Qed.

Lemma error_or_disconnect_leaves_connect_pending_witness :
  awaitConnected
    (run brokerUrl0 init
       [CallConnect; SocketError 0; SocketClosed 0; SocketMessage 0 welcome7])
  = None.
Proof.
  destruct (error_or_disconnect_leaves_connect_pending brokerUrl0
              connectingState (SocketError 0)
              [SocketClosed 0; SocketMessage 0 welcome7])
    as (_ & _ & Hpending).
  - right.
    exists 0, (set_onmessage true (set_onerror true (WS.create brokerUrl0 "comms"))).
    repeat split. discriminate.
  - destruct Hpending as [_ Hstays]; [reflexivity |].
    apply Hstays. rewrite !not_elem_of_cons.
    repeat split; [discriminate | discriminate | apply not_elem_of_nil].
Defined.

End BrokerProps.

(** ** The BFF transport *)

Module BFFProps.

Import WS BFF.

Lemma set_logger_id s : set_logger (logger s) s = s.
Proof. by destruct s. Qed.

Lemma set_timers_id s : set_timers (timers s) s = s.
Proof. by destruct s. Qed.

Lemma set_sockets_id s : set_sockets (sockets s) s = s.
Proof. by destruct s. Qed.

Lemma on_socket_id i s : on_socket i (fun w => w) s = s.
Proof.
  unfold on_socket. destruct (sockets s !! i) eqn:Hw; [| done].
  rewrite list_insert_id by done. apply set_sockets_id.
Qed.

Lemma bff_send_open_transmits s msg i w :
  ws s = Some i -> sockets s !! i = Some w -> readyState w = WS.OPEN ->
  send msg s = (Ok tt, on_socket i (transmit msg) s).
Proof.
  intros Hi Hw Ho. unfold send, on_socket. rewrite Hi, Hw.
  unfold WS.send. by rewrite Ho.
Qed.

Lemma send_without_socket s msg :
  ws s = None -> send msg s = (Throw transportClosed, s).
Proof. intros Hn. unfold send. by rewrite Hn. Qed.

Section Facts.

Context {number : Type} `{Proto number}.
Variable bffUrl : string.

#[local] Abbreviation step := (BFF.step (number := number) bffUrl).
#[local] Abbreviation run := (BFF.run (number := number) bffUrl).

Lemma sendHeartBeat_known position now1 now2 :
  sendHeartBeat (Some position) now1 now2 = send (heartBeatFrame position now1 now2).
Proof. by destruct position as [[x y] z]. Qed.

(** C5: without a position the heartbeat routine returns and leaves the
    transport as it was, also when its timer runs it, so nothing goes out;
    with a position it sends the one HEARTBEAT frame that carries this
    position, which a transport whose socket is open transmits. *)
Theorem sendHeartBeat_skips_or_sends s now1 now2 :
  sendHeartBeat None now1 now2 s = (Ok tt, s)
  /\ (forall t, step s (TimerFires t None now1 now2) = s)
  /\ (forall position,
        sendHeartBeat (Some position) now1 now2 s
        = send (heartBeatFrame position now1 now2) s)
  /\ (forall position i w,
        ws s = Some i -> sockets s !! i = Some w -> readyState w = WS.OPEN ->
        sendHeartBeat (Some position) now1 now2 s
        = (Ok tt, on_socket i (transmit (heartBeatFrame position now1 now2)) s)
        /\ sockets (exec (sendHeartBeat (Some position) now1 now2) s) !! i
           = Some (transmit (heartBeatFrame position now1 now2) w)).
Proof.
  split; [reflexivity |]. split; [| split].
  - intros t. simpl. by destruct (bool_decide (t ∈ timers s)).
  - intros position. by rewrite sendHeartBeat_known.
  - intros position i w Hi Hw Ho. rewrite sendHeartBeat_known.
    unfold exec. rewrite (bff_send_open_transmits s _ i w) by done.
    split; [reflexivity |]. simpl. unfold on_socket. rewrite Hw. simpl.
    apply list_lookup_insert_eq. by eapply lookup_lt_Some.
Qed.

(** C8: handling a malformed frame returns normally and changes nothing but
    the log, whose last new line is an error; the socket, the timers, the
    observables and the socket reference are as before. *)
Theorem malformed_frame_is_dropped s msg :
  malformed msg ->
  exists lines what,
    last lines = Some (mkLog LError what)
    /\ onWsMessage msg s = (Ok tt, set_logger (logger s ++ lines) s)
    /\ onmessageHandler msg s = set_logger (logger s ++ lines) s
    /\ ws (onmessageHandler msg s) = ws s
    /\ sockets (onmessageHandler msg s) = sockets s
    /\ timers (onmessageHandler msg s) = timers s
    /\ heartBeatInterval (onmessageHandler msg s) = heartBeatInterval s
    /\ onDisconnectObservable (onmessageHandler msg s) = onDisconnectObservable s
    /\ onTopicMessageObservable (onmessageHandler msg s) = onTopicMessageObservable s
    /\ onIslandChangeObservable (onmessageHandler msg s) = onIslandChangeObservable s
    /\ unhandled (onmessageHandler msg s) = unhandled s.
Proof.
  unfold malformed, onmessageHandler, caught, onWsMessage.
  intros [Hh | [[Hh Hb] | [[Hh Hb] | [Hh Hb]]]]; rewrite Hh; try rewrite Hb.
  - by eexists [mkLog LError "cannot deserialize message header"], _.
  - eexists [mkLog LLog "open message received";
            mkLog LError "cannot process open message"], _.
    unfold mbind, M_bind, bind, modify, log. simpl.
    rewrite <- app_assoc. by repeat split.
  - by eexists [mkLog LError "cannot process topic message"], _.
  - by eexists [mkLog LError "cannot process topic message"], _.
Qed.

(** *** The sockets of a reachable transport *)

Lemma wf_ext s s' :
  ws s' = ws s -> sockets s' = sockets s -> wf s -> wf s'.
Proof. unfold wf. intros -> ->. done. Qed.

Lemma others_closing_ext s s' :
  ws s' = ws s -> sockets s' = sockets s -> others_closing s -> others_closing s'.
Proof. unfold others_closing. intros -> ->. done. Qed.

Lemma wf_others_closing s : wf s -> others_closing s.
Proof.
  intros [Hok _] j w Hw Hne. specialize (Hok j w Hw). unfold socket_ok in Hok.
  by destruct (decide (ws s = Some j)).
Qed.

Lemma wf_held s i :
  wf s -> ws s = Some i ->
  exists w, sockets s !! i = Some w
            /\ onmessage w = true /\ onerror w = true /\ onclose w = true
            /\ readyState w <> CLOSED.
Proof.
  intros [Hok Hlt] Hi. destruct (lookup_lt_is_Some_2 (sockets s) i) as [w Hw];
    [by apply Hlt |].
  exists w. split; [done |]. specialize (Hok i w Hw). unfold socket_ok in Hok.
  by destruct (decide (ws s = Some i)).
Qed.

Lemma wf_init : wf init.
Proof. split; [intros j w Hw; by destruct j | intros i Hi; discriminate]. Qed.

Lemma sockets_on_socket i f s j :
  sockets (on_socket i f s) !! j
  = if decide (i = j) then f <$> sockets s !! j else sockets s !! j.
Proof.
  unfold on_socket. destruct (sockets s !! i) as [w|] eqn:Hw; simpl.
  - destruct (decide (i = j)) as [<- | Hne].
    + rewrite list_lookup_insert_eq by (by eapply lookup_lt_Some). by rewrite Hw.
    + by rewrite list_lookup_insert_ne.
  - destruct (decide (i = j)) as [<- | Hne]; [by rewrite Hw | done].
Qed.

Lemma ws_on_socket i f s : ws (on_socket i f s) = ws s.
Proof. unfold on_socket. by destruct (sockets s !! i). Qed.

Lemma length_on_socket i f s : length (sockets (on_socket i f s)) = length (sockets s).
Proof.
  unfold on_socket. destruct (sockets s !! i); [| done]. simpl. apply length_insert.
Qed.

(** Updating a socket in a way that keeps its own condition keeps [wf]. *)
Lemma wf_on_socket i f s :
  wf s ->
  (forall w, sockets s !! i = Some w -> socket_ok (ws s) i w -> socket_ok (ws s) i (f w)) ->
  wf (on_socket i f s).
Proof.
  intros [Hok Hlt] Hf. split.
  - intros j w'. rewrite sockets_on_socket, ws_on_socket.
    destruct (decide (i = j)) as [<- | Hne]; [| apply Hok].
    destruct (sockets s !! i) as [w|] eqn:Hw; [| done].
    simpl. intros [= <-]. apply Hf; [done | by apply Hok].
  - intros k. rewrite ws_on_socket, length_on_socket. apply Hlt.
Qed.

Lemma socket_ok_same cur j w w' :
  readyState w' = readyState w -> onmessage w' = onmessage w ->
  onerror w' = onerror w -> onclose w' = onclose w ->
  socket_ok cur j w -> socket_ok cur j w'.
Proof. unfold socket_ok. by intros -> -> -> ->. Qed.

Lemma close_closing w :
  readyState (WS.close w) = CLOSING \/ readyState (WS.close w) = CLOSED.
Proof. unfold WS.close. destruct (readyState w) eqn:Hr; simpl; auto. Qed.

(** After [disconnect] the transport holds no socket and every socket is
    CLOSING or CLOSED. *)
Lemma wf_disconnect s : others_closing s -> wf (exec disconnect s).
Proof.
  intros Hoth. unfold exec, disconnect.
  set (s1 := match heartBeatInterval s with Some t => clearInterval t s | None => s end).
  assert (Hws : ws s1 = ws s) by (subst s1; by destruct (heartBeatInterval s)).
  assert (Hso : sockets s1 = sockets s) by (subst s1; by destruct (heartBeatInterval s)).
  apply (others_closing_ext s s1 Hws Hso) in Hoth. clearbody s1.
  destruct (ws s1) as [i|] eqn:Hi; simpl.
  - split; [| intros k Hk; discriminate]. simpl.
    intros j w'. rewrite sockets_on_socket. unfold socket_ok. simpl.
    destruct (decide (i = j)) as [<- | Hne].
    + destruct (sockets s1 !! i) as [w|]; [| done]. simpl. intros [= <-].
      apply close_closing.
    + intros Hw. apply (Hoth j w' Hw). congruence.
  - split; [| intros k Hk; congruence].
    intros j w Hw. unfold socket_ok. rewrite Hi. simpl. apply (Hoth j w Hw). congruence.
Qed.

Lemma wf_send msg s : wf s -> wf (exec (send msg) s).
Proof.
  intros Hwf. unfold exec, send.
  destruct (ws s) as [i|] eqn:Hi; [| done].
  destruct (sockets s !! i) as [w|] eqn:Hw; [| done]. simpl.
  assert (Heq : set_sockets (<[i := (WS.send msg w).2]> (sockets s)) s
                = on_socket i (fun w => (WS.send msg w).2) s)
    by (unfold on_socket; by rewrite Hw).
  rewrite Heq. apply wf_on_socket; [done |].
  intros w0 _. apply socket_ok_same; unfold WS.send;
    destruct (readyState w0) eqn:Hr; simpl; congruence.
Qed.

Lemma wf_floating_send msg s : wf s -> wf (exec (floating (send msg)) s).
Proof.
  intros Hwf. pose proof (wf_send msg s Hwf) as Hs. unfold exec, floating in *.
  destruct (send msg s) as [[[]|e] s']; simpl in *; [done |].
  by apply (wf_ext s').
Qed.

Lemma wf_connectWS s : wf s -> wf (exec (connectWS bffUrl) s).
Proof.
  intros Hwf.
  assert (Hfresh : forall s1, ws s1 = None -> others_closing s1 ->
    wf (set_ws (Some (length (sockets s1)))
          (set_sockets (sockets s1 ++
             [set_onmessage true (set_onclose true (set_onerror true
                (WS.create bffUrl "comms")))]) s1))).
  { intros s1 Hn Hoth. split; simpl.
    - intros j w Hw. unfold socket_ok.
      destruct (decide (Some (length (sockets s1)) = Some j)) as [[= <-] | Hne].
      + rewrite lookup_app_r in Hw by done. rewrite Nat.sub_diag in Hw.
        injection Hw as <-. by repeat split.
      + assert (j <> length (sockets s1)) by congruence.
        apply lookup_lt_Some in Hw as Hlt. rewrite length_app in Hlt. simpl in Hlt.
        rewrite lookup_app_l in Hw by lia.
        apply (Hoth j w Hw). congruence.
    - intros i [= <-]. rewrite length_app. simpl. lia. }
  unfold exec, connectWS.
  destruct (ws s) as [i|] eqn:Hi.
  - destruct (wf_held s i Hwf Hi) as (w & Hw & _ & _ & _ & Hnc). rewrite Hw.
    destruct (decide (readyState w = WS.OPEN)); [done |].
    apply (Hfresh (set_ws None (on_socket i WS.close s))); [done |].
    intros j w'. simpl. rewrite sockets_on_socket.
    destruct (decide (i = j)) as [<- | Hne].
    + rewrite Hw. simpl. intros [= <-] _. apply close_closing.
    + intros Hw' _. apply (wf_others_closing s Hwf j w' Hw'). congruence.
  - apply (Hfresh s); [done | by apply wf_others_closing].
Qed.

Lemma disconnect_ok s : disconnect s = (Ok tt, exec disconnect s).
Proof.
  unfold exec, disconnect.
  by destruct (ws (match heartBeatInterval s with
                   | Some t => clearInterval t s | None => s end)).
Qed.

Lemma caught_disconnect s : caught disconnect s = exec disconnect s.
Proof. unfold caught. by rewrite disconnect_ok. Qed.

Lemma wf_sendHeartBeat position now1 now2 s :
  wf s -> wf (exec (floating (sendHeartBeat position now1 now2)) s)
          /\ wf (exec (sendHeartBeat position now1 now2) s).
Proof.
  intros Hwf. destruct position as [p|].
  - rewrite sendHeartBeat_known. split; [by apply wf_floating_send | by apply wf_send].
  - done.
Qed.

Lemma wf_onWsMessage msg s : wf s -> wf (caught (onWsMessage msg) s).
Proof.
  intros Hwf. unfold caught, onWsMessage.
  destruct (getType msg) as [[| | | | | | | | |tag]|]; simpl; try done.
  - unfold mbind, M_bind, bind, modify. simpl.
    destruct (getPayload msg) as [payload|]; simpl; [| done].
    match goal with |- context [floating (send ?m) ?s1] =>
      pose proof (wf_floating_send m s1) as Hs end.
    unfold exec in Hs.
    destruct (floating _ _) as [[[]|e] s']; simpl in *.
    + by apply Hs.
    + apply (wf_ext s'); [done | done |]. by apply Hs.
  - unfold mbind, M_bind, bind, modify, floating. simpl.
    rewrite disconnect_ok. simpl. apply wf_disconnect.
    apply (others_closing_ext s); [done | done |]. by apply wf_others_closing.
  - destruct (getTopicData msg); done.
  - destruct (getConnStr msg); done.
Qed.

Lemma others_closing_set_closed j s :
  wf s -> others_closing (on_socket j (set_readyState CLOSED) s).
Proof.
  intros Hwf k w'. rewrite sockets_on_socket, ws_on_socket.
  destruct (decide (j = k)) as [<- | Hne].
  - destruct (sockets s !! j); [| done]. simpl. intros [= <-] _. by right.
  - by apply wf_others_closing.
Qed.

Lemma wf_set_closed_other j s :
  wf s -> ws s <> Some j -> wf (on_socket j (set_readyState CLOSED) s).
Proof.
  intros Hwf Hne. apply wf_on_socket; [done |].
  intros w _ _. unfold socket_ok.
  destruct (decide (ws s = Some j)); [contradiction | by right].
Qed.

Lemma wf_no_handler s j w :
  wf s -> sockets s !! j = Some w ->
  onmessage w = false \/ onerror w = false \/ onclose w = false ->
  ws s <> Some j.
Proof.
  intros Hwf Hw Hno Hj. destruct (wf_held s j Hwf Hj) as (w' & Hw' & Hm & He & Hc & _).
  rewrite Hw in Hw'. injection Hw' as <-.
  destruct Hno as [? | [? | ?]]; congruence.
Qed.

(** Every event keeps the sockets as [wf] describes them. *)
Lemma wf_step s ev : wf s -> wf (step s ev).
Proof.
  intros Hwf. destruct ev; simpl.
  - unfold exec, connect_start, mbind, M_bind, bind, modify.
    pose proof (wf_connectWS s Hwf) as Hc. unfold exec in Hc.
    destruct (connectWS bffUrl s) as [[[]|e] s']; simpl in *; [| done].
    by apply (wf_ext s').
  - destruct (connecting s); [done |]. by apply (wf_ext s).
  - apply wf_disconnect. by apply wf_others_closing.
  - by apply wf_send.
  - by apply wf_floating_send.
  - by apply wf_floating_send.
  - by apply wf_sendHeartBeat.
  - destruct (bool_decide (t ∈ timers s)); [| done]. by apply wf_sendHeartBeat.
  - apply wf_on_socket; [done |]. intros w _. unfold socket_ok.
    destruct (decide (ws s = Some i)).
    + destruct (decide (readyState w = CONNECTING)); [| done]. simpl.
      intros (? & ? & ? & _). by repeat split.
    + intros [Hr | Hr]; rewrite Hr; simpl; rewrite Hr; auto.
  - apply wf_on_socket; [done |]. intros w _. unfold socket_ok.
    destruct (decide (ws s = Some i)).
    + destruct (decide (readyState w = WS.OPEN)); [| done]. simpl.
      intros (? & ? & ? & _). by repeat split.
    + intros [Hr | Hr]; rewrite Hr; simpl; rewrite Hr; auto.
  - destruct (sockets s !! i) as [w|]; [| done].
    destruct (bool_decide (readyState w = WS.OPEN) && onmessage w); [| done].
    by apply wf_onWsMessage.
  - destruct (sockets s !! i) as [w|] eqn:Hw; [| done].
    destruct (decide (readyState w = CLOSED)); [done |].
    destruct (onerror w) eqn:He; simpl.
    + unfold onerrorHandler. rewrite caught_disconnect. apply wf_disconnect.
      eapply others_closing_ext; [| | by apply (others_closing_set_closed i s)]; done.
    + apply wf_set_closed_other; [done |]. eapply wf_no_handler; eauto.
  - destruct (sockets s !! i) as [w|] eqn:Hw; [| done].
    destruct (decide (readyState w = CLOSED)); [done |].
    destruct (onclose w) eqn:He; simpl.
    + unfold oncloseHandler. rewrite caught_disconnect. apply wf_disconnect.
      by apply others_closing_set_closed.
    + apply wf_set_closed_other; [done |]. eapply wf_no_handler; eauto.
Qed.

Lemma bff_run_snoc s tr ev : run s (tr ++ [ev]) = step (run s tr) ev.
Proof. unfold BFF.run. by rewrite fold_left_app. Qed.

Lemma wf_run s tr : wf s -> wf (run s tr).
Proof.
  revert s. induction tr as [|ev tr IH]; intros s Hwf; [done |].
  simpl. apply IH. by apply wf_step.
Qed.

(** In a reachable state, a socket that can deliver a message is the one
    the transport holds. *)
Lemma wf_open_is_held s i w :
  wf s -> sockets s !! i = Some w -> readyState w = WS.OPEN -> ws s = Some i.
Proof.
  intros [Hok _] Hw Ho. specialize (Hok i w Hw). unfold socket_ok in Hok.
  destruct (decide (ws s = Some i)); [done |]. rewrite Ho in Hok. by destruct Hok.
Qed.

(** *** Teardown *)

Lemma filter_stopped (t : positive) (l : list positive) :
  t ∉ l -> filter (fun t' => t' <> t) l = l.
Proof.
  induction l as [|a l IH]; intros Hn; [done |].
  apply not_elem_of_cons in Hn as [Hne Hn].
  rewrite filter_cons_True by congruence. by rewrite IH.
Qed.

Lemma clearInterval_stopped t s : t ∉ timers s -> clearInterval t s = s.
Proof.
  intros Hn. unfold clearInterval. rewrite filter_stopped by done.
  apply set_timers_id.
Qed.

Lemma clearInterval_stops t s : t ∉ timers (clearInterval t s).
Proof.
  unfold clearInterval. simpl. rewrite list_elem_of_filter. by intros [? _].
Qed.

Lemma disconnect_closed s :
  ws s = None -> (forall t, heartBeatInterval s = Some t -> t ∉ timers s) ->
  disconnect s = (Ok tt, s).
Proof.
  intros Hn Ht. unfold disconnect.
  destruct (heartBeatInterval s) as [t|] eqn:Hhb.
  - rewrite clearInterval_stopped by (by apply Ht). by rewrite Hn.
  - by rewrite Hn.
Qed.

Lemma on_socket_fields i f s :
  timers (on_socket i f s) = timers s
  /\ heartBeatInterval (on_socket i f s) = heartBeatInterval s
  /\ onDisconnectObservable (on_socket i f s) = onDisconnectObservable s
  /\ logger (on_socket i f s) = logger s.
Proof. unfold on_socket. by destruct (sockets s !! i). Qed.

Lemma disconnect_makes_closed s :
  ws (exec disconnect s) = None
  /\ forall t, heartBeatInterval (exec disconnect s) = Some t ->
               t ∉ timers (exec disconnect s).
Proof.
  unfold exec, disconnect.
  set (s1 := match heartBeatInterval s with Some t => clearInterval t s | None => s end).
  assert (Hhb : heartBeatInterval s1 = heartBeatInterval s)
    by (subst s1; destruct (heartBeatInterval s) eqn:E; simpl; congruence).
  assert (Hti : forall t, heartBeatInterval s = Some t -> t ∉ timers s1).
  { intros t Ht. subst s1. rewrite Ht. apply clearInterval_stops. }
  clearbody s1. destruct (ws s1) as [i|] eqn:Hw; simpl.
  - destruct (on_socket_fields i (fun w => WS.close (clear_handlers w)) s1)
      as (Ht & Hh & _).
    split; [done |]. rewrite Ht, Hh, Hhb. exact Hti.
  - split; [done |]. rewrite Hhb. exact Hti.
Qed.

Lemma disconnect_idempotent s :
  disconnect (exec disconnect s) = (Ok tt, exec disconnect s).
Proof.
  destruct (disconnect_makes_closed s) as [Hn Ht]. by apply disconnect_closed.
Qed.

(** What [disconnect] does to a transport that holds the socket [i]. *)
Lemma disconnect_held s i w :
  ws s = Some i -> sockets s !! i = Some w ->
  ws (exec disconnect s) = None
  /\ sockets (exec disconnect s) !! i = Some (WS.close (clear_handlers w))
  /\ (forall t, heartBeatInterval s = Some t -> t ∉ timers (exec disconnect s))
  /\ onDisconnectObservable (exec disconnect s) = S (onDisconnectObservable s)
  /\ logger (exec disconnect s) = logger s.
Proof.
  intros Hi Hw. unfold exec, disconnect.
  set (s1 := match heartBeatInterval s with Some t => clearInterval t s | None => s end).
  assert (Hws : ws s1 = ws s) by (subst s1; by destruct (heartBeatInterval s)).
  assert (Hso : sockets s1 = sockets s) by (subst s1; by destruct (heartBeatInterval s)).
  assert (Hob : onDisconnectObservable s1 = onDisconnectObservable s)
    by (subst s1; by destruct (heartBeatInterval s)).
  assert (Hlo : logger s1 = logger s) by (subst s1; by destruct (heartBeatInterval s)).
  assert (Hti : forall t, heartBeatInterval s = Some t -> t ∉ timers s1).
  { intros t Ht. subst s1. rewrite Ht. apply clearInterval_stops. }
  clearbody s1. rewrite Hws, Hi. simpl.
  assert (Hts : forall f, timers (on_socket i f s1) = timers s1)
    by (intros f; unfold on_socket; by destruct (sockets s1 !! i)).
  assert (Hls : forall f, logger (on_socket i f s1) = logger s1)
    by (intros f; unfold on_socket; by destruct (sockets s1 !! i)).
  repeat split.
  - rewrite sockets_on_socket, Hso, Hw. by destruct (decide (i = i)).
  - intros t Ht. rewrite Hts. by apply Hti.
  - by rewrite Hob.
  - by rewrite Hls.
Qed.

Lemma disconnect_timers s : timers (exec disconnect s) = afterClear s.
Proof.
  unfold exec, disconnect, afterClear.
  destruct (heartBeatInterval s) as [t|]; simpl.
  - destruct (ws s) as [i|]; simpl; [| done].
    by destruct (on_socket_fields i (fun w => WS.close (clear_handlers w))
                   (clearInterval t s)) as [-> _].
  - destruct (ws s) as [i|]; simpl; [| done].
    by destruct (on_socket_fields i (fun w => WS.close (clear_handlers w)) s)
      as [-> _].
Qed.

Lemma disconnect_without_socket s :
  ws s = None ->
  onDisconnectObservable (exec disconnect s) = onDisconnectObservable s
  /\ sockets (exec disconnect s) = sockets s
  /\ ws (exec disconnect s) = None.
Proof.
  intros Hn. unfold exec, disconnect.
  destruct (heartBeatInterval s) as [t|]; simpl; by rewrite Hn.
Qed.

(** Teardown on a validation failure, in every reachable state.  A
    VALIDATION_FAILURE frame (it arrives on an open socket whose message
    handler is set) finds that socket held by the transport.  Handling it
    leaves that socket CLOSING with its three handlers [null], drops the
    socket reference, notifies the disconnect observers once, and stops the
    interval whose handle the transport keeps and no other: the intervals
    left running are those of [afterClear].  A second [disconnect] returns
    without changing anything, the close event the socket fires afterwards
    notifies nobody, and a [disconnect] on a transport without a socket
    notifies nobody and touches no socket. *)
Theorem validation_failure_tears_down_once tr i w msg :
  sockets (run init tr) !! i = Some w ->
  readyState w = WS.OPEN -> onmessage w = true ->
  getType msg = Some MessageType.VALIDATION_FAILURE ->
  ws (run init tr) = Some i
  /\ ws (run init (tr ++ [SocketMessage i msg])) = None
  /\ sockets (run init (tr ++ [SocketMessage i msg])) !! i
     = Some (mkWS (url w) (subprotocol w) CLOSING false false false (wire w))
  /\ timers (run init (tr ++ [SocketMessage i msg])) = afterClear (run init tr)
  /\ (forall t, heartBeatInterval (run init tr) = Some t ->
                t ∉ timers (run init (tr ++ [SocketMessage i msg])))
  /\ onDisconnectObservable (run init (tr ++ [SocketMessage i msg]))
     = S (onDisconnectObservable (run init tr))
  /\ disconnect (run init (tr ++ [SocketMessage i msg]))
     = (Ok tt, run init (tr ++ [SocketMessage i msg]))
  /\ onDisconnectObservable (run init (tr ++ [SocketMessage i msg; SocketClosed i]))
     = S (onDisconnectObservable (run init tr))
  /\ (forall s, disconnect (exec disconnect s) = (Ok tt, exec disconnect s))
  /\ (forall s, ws s = None ->
                onDisconnectObservable (exec disconnect s) = onDisconnectObservable s
                /\ sockets (exec disconnect s) = sockets s
                /\ timers (exec disconnect s) = afterClear s).
Proof.
  intros Hw Ho Hm Hty.
  pose proof (wf_run init tr wf_init) as Hwf.
  pose proof (wf_open_is_held _ i w Hwf Hw Ho) as Hi.
  assert (Hstep : run init (tr ++ [SocketMessage i msg])
                  = exec disconnect
                      (log LLog "validation failure, disconnecting bff" (run init tr))).
  { rewrite bff_run_snoc. simpl. rewrite Hw, Ho, Hm.
    rewrite bool_decide_eq_true_2 by done. simpl.
    unfold onmessageHandler, caught, onWsMessage. rewrite Hty.
    unfold mbind, M_bind, bind, modify, floating. simpl.
    by rewrite disconnect_ok. }
  assert (Hclose : WS.close (clear_handlers w)
                   = mkWS (url w) (subprotocol w) CLOSING false false false (wire w))
    by (unfold WS.close, clear_handlers; simpl; by rewrite Ho).
  set (s := run init tr) in *.
  set (s0 := log LLog "validation failure, disconnecting bff" s) in *.
  destruct (disconnect_held s0 i w) as (Hn & Hsock & Htim & Hobs & _); [done | done |].
  rewrite Hclose in Hsock.
  split; [exact Hi |]. rewrite Hstep.
  split; [exact Hn |]. split; [exact Hsock |].
  split; [by rewrite disconnect_timers |]. split; [exact Htim |].
  split; [exact Hobs |]. split; [apply disconnect_idempotent |]. split.
  - replace (tr ++ [SocketMessage i msg; SocketClosed i])
      with ((tr ++ [SocketMessage i msg]) ++ [SocketClosed i])
      by (by rewrite <- app_assoc).
    rewrite bff_run_snoc. rewrite Hstep. simpl. rewrite Hsock. simpl.
    unfold on_socket. rewrite Hsock. exact Hobs.
  - split; [apply disconnect_idempotent |].
    intros s1 Hs1. destruct (disconnect_without_socket s1 Hs1) as (Hd & Hso & _).
    split; [exact Hd |]. split; [exact Hso | apply disconnect_timers].
Qed.

(** C6: [send] on a transport that holds no socket throws the
    transport-closed error to its caller and does nothing else: nothing is
    transmitted, nothing is kept for a retry. So it is in every reachable
    state in which the socket is absent or CLOSED, a CLOSED socket being
    never held. *)
Theorem send_on_closed_transport_throws tr msg :
  (ws (run init tr) = None
   \/ exists i w, ws (run init tr) = Some i /\ sockets (run init tr) !! i = Some w
                  /\ readyState w = CLOSED) ->
  send msg (run init tr) = (Throw transportClosed, run init tr)
  /\ run init (tr ++ [CallSend msg]) = run init tr
  /\ (forall s, ws s = None -> send msg s = (Throw transportClosed, s)).
Proof.
  intros Hc.
  assert (Hn : ws (run init tr) = None).
  { destruct Hc as [Hn | (i & w & Hi & Hw & Hcl)]; [exact Hn |].
    destruct (wf_held _ i (wf_run init tr wf_init) Hi) as (w' & Hw' & _ & _ & _ & Hno).
    congruence. }
  assert (Hrun : run init (tr ++ [CallSend msg]) = run init tr).
  { rewrite bff_run_snoc. simpl. unfold exec. by rewrite send_without_socket. }
  split; [by apply send_without_socket |]. split; [exact Hrun |].
  intros s. apply send_without_socket.
Qed.

End Facts.

#[local] Existing Instance toyProto.

Example established_state :
  ws (run bffUrl0 init established) = Some 0
  /\ heartBeatInterval (run bffUrl0 init established) = Some 1%positive
  /\ timers (run bffUrl0 init established) = [1%positive]
  /\ onDisconnectObservable (run bffUrl0 init established) = 0.
Proof. by repeat split. Qed.

Example teardown_run :
  let s := run bffUrl0 init
             (established ++ [SocketMessage 0 validationFailure; CallDisconnect;
                              SocketClosed 0]) in
  ws s = None /\ timers s = [] /\ onDisconnectObservable s = 1.
Proof. by repeat split. Qed.

(** C4: a validation failure on a transport on which [connect] was called
    twice.  Before the frame the transport holds one open socket and runs
    two heartbeat intervals, of which it keeps the handle of the second.
    The frame closes the socket, clears its handlers, drops the reference
    and notifies once, but it stops the second interval only: the first
    keeps running.  A second [disconnect] changes nothing, so it does not
    stop it either, and when it fires, its heartbeat finds the transport
    closed. *)
Theorem validation_failure_leaves_first_heartbeat_running :
  ws (run bffUrl0 init connectedTwice) = Some 0
  /\ sockets (run bffUrl0 init connectedTwice) = [openSocket]
  /\ heartBeatInterval (run bffUrl0 init connectedTwice) = Some 2%positive
  /\ timers (run bffUrl0 init connectedTwice) = [2%positive; 1%positive]
  /\ ws (run bffUrl0 init failureAfterTwoConnects) = None
  /\ sockets (run bffUrl0 init failureAfterTwoConnects)
     = [mkWS bffUrl0 "comms" CLOSING false false false []]
  /\ onDisconnectObservable (run bffUrl0 init failureAfterTwoConnects) = 1
  /\ timers (run bffUrl0 init failureAfterTwoConnects) = [1%positive]
  /\ run bffUrl0 init (failureAfterTwoConnects ++ [CallDisconnect])
     = run bffUrl0 init failureAfterTwoConnects
  /\ unhandled (run bffUrl0 init failureAfterTwoConnects) = []
  /\ unhandled (run bffUrl0 init
                  (failureAfterTwoConnects
                   ++ [TimerFires 1%positive (Some (1, 2, 3)%Z) 10 11]))
     = [transportClosed].
Proof. repeat split; by vm_compute. Qed.

Lemma validation_failure_tears_down_once_witness :
  ws (run bffUrl0 init (established ++ [SocketMessage 0 validationFailure])) = None
  /\ onDisconnectObservable
       (run bffUrl0 init (established ++ [SocketMessage 0 validationFailure])) = 1
  /\ 1%positive ∉ timers
       (run bffUrl0 init (established ++ [SocketMessage 0 validationFailure])).
Proof.
  destruct (validation_failure_tears_down_once bffUrl0 established 0
              openSocket validationFailure)
    as (_ & Hws & _ & _ & Htimer & Hobs & _);
    [reflexivity | reflexivity | reflexivity | reflexivity |].
  split; [exact Hws |]. split; [exact Hobs |]. apply Htimer. reflexivity.
Defined.

Lemma sendHeartBeat_skips_or_sends_witness :
  sockets (exec (sendHeartBeat (Some (1, 2, 3)%Z) 10 11)
             (run bffUrl0 init established)) !! 0
  = Some (transmit [Byte.x05; Byte.x01; Byte.x02; Byte.x03] openSocket).
Proof.
  destruct (sendHeartBeat_skips_or_sends bffUrl0 (run bffUrl0 init established) 10 11)
    as (_ & _ & _ & Hsend).
  destruct (Hsend (1, 2, 3)%Z 0 openSocket) as [_ Hwire];
    [reflexivity | reflexivity | reflexivity |].
  exact Hwire.
Defined.

Lemma send_on_closed_transport_throws_witness :
  send [Byte.x2a] (run bffUrl0 init (established ++ [CallDisconnect]))
  = (Throw transportClosed, run bffUrl0 init (established ++ [CallDisconnect])).
Proof.
  destruct (send_on_closed_transport_throws bffUrl0
              (established ++ [CallDisconnect]) [Byte.x2a]) as (Hthrows & _).
  - left. reflexivity.
  - exact Hthrows.
Defined.

Lemma malformed_frame_is_dropped_witness :
  exists lines what,
    last lines = Some (mkLog LError what)
    /\ onmessageHandler [Byte.x07] (run bffUrl0 init established)
       = set_logger (logger (run bffUrl0 init established) ++ lines)
           (run bffUrl0 init established).
Proof.
  destruct (malformed_frame_is_dropped (run bffUrl0 init established) [Byte.x07])
    as (lines & what & Hlast & _ & Hdrop & _).
  - right. right. left. split; reflexivity.
  - by exists lines, what.
Defined.

End BFFProps.

(** * Further properties of the sources *)

(** ** URL helpers *)

Module CommsUrlMore.

Import Sagas CommsUrl CommsUrlProps.

Lemma prefix_split p s :
  String.prefix p s = true ->
  s = p +:+ String.substring (String.length p) (String.length s - String.length p) s.
Proof.
  revert s. induction p as [|c p IH]; intros s Hp; simpl.
  - rewrite Nat.sub_0_r. by rewrite substring_all.
  - destruct s as [|c' s]; [discriminate |]. simpl in Hp.
    destruct (Ascii.ascii_dec c c') as [<- | ?]; [| discriminate].
    exact (f_equal (String c) (IH s Hp)).
Qed.

Lemma httpToWs_no_http_scheme u : hasHttpScheme (httpToWs u) = false.
Proof.
  unfold hasHttpScheme.
  destruct (startsWith "https://" u) eqn:Hs.
  - apply prefix_split in Hs. rewrite Hs, httpToWs_https. reflexivity.
  - destruct (startsWith "http://" u) eqn:Hp.
    + apply prefix_split in Hp. rewrite Hp, httpToWs_http. reflexivity.
    + rewrite httpToWs_other by done. unfold startsWith in *. by rewrite Hs, Hp.
Qed.

(** X1: [httpToWs] never returns an address whose scheme is still http or
    https, and applying it again changes nothing. *)
Theorem httpToWs_leaves_no_http u :
  hasHttpScheme (httpToWs u) = false
  /\ httpToWs (httpToWs u) = httpToWs u.
Proof.
  pose proof (httpToWs_no_http_scheme u) as Hno.
  split; [exact Hno |].
  unfold hasHttpScheme in Hno. apply orb_false_iff in Hno as [H1 H2].
  by apply httpToWs_other.
Qed.

Section Resolve.

Variable URL_toString : string -> string -> option string.

(** X2: [resolveCommsV4Url] returns [undefined] exactly for the realms
    whose protocol is not v4, and an address it returns never has the
    scheme http or https. *)
Theorem resolveCommsV4Url_result realm :
  (resolveCommsV4Url URL_toString realm = Ok None <-> protocol realm <> "v4")
  /\ (forall address,
        resolveCommsV4Url URL_toString realm = Ok (Some address) ->
        protocol realm = "v4" /\ hasHttpScheme address = false).
Proof.
  unfold resolveCommsV4Url.
  destruct (String.eqb_spec (protocol realm) "v4") as [Hv | Hv]; simpl.
  - split.
    + split; [| contradiction]. intros Hr.
      destruct (String.eqb (hostname realm) "local"); [discriminate |].
      destruct (String.eqb (hostname realm) "remote"); [discriminate |].
      destruct (URL_toString _ _); discriminate.
    + intros address Hr. split; [done |].
      destruct (String.eqb (hostname realm) "local");
        [injection Hr as <-; apply httpToWs_no_http_scheme |].
      destruct (String.eqb (hostname realm) "remote");
        [injection Hr as <-; apply httpToWs_no_http_scheme |].
      destruct (URL_toString _ _); [| discriminate].
      injection Hr as <-. apply httpToWs_no_http_scheme.
  - split; [done |]. intros address Hr. discriminate.
Qed.

End Resolve.

Lemma resolveCommsV4Url_result_witness :
  hasHttpScheme "wss://peer.decentraland.org/bff/ws-bff" = false.
Proof.
  destruct (resolveCommsV4Url_result originJoin
              (mkRealm "v4" "peer.decentraland.org" "dg")) as [_ Hres].
  apply (Hres "wss://peer.decentraland.org/bff/ws-bff"). reflexivity.
Defined.

Lemma hasHttpScheme_http rest : hasHttpScheme ("http://" +:+ rest) = true.
Proof. unfold hasHttpScheme, startsWith. by rewrite prefix_app. Qed.

Lemma hasHttpScheme_https rest : hasHttpScheme ("https://" +:+ rest) = true.
Proof.
  unfold hasHttpScheme, startsWith. rewrite (prefix_app "https://").
  apply orb_true_r.
Qed.

Section WithProtocol.

Variable locationProtocol : string.

Lemma normalizeUrl_relative rest :
  normalizeUrl locationProtocol ("://" +:+ rest) = (locationProtocol +:+ "//") +:+ rest.
Proof. unfold normalizeUrl. by rewrite replacePrefix_app. Qed.

Lemma normalizeUrl_http url :
  hasHttpScheme url = true -> normalizeUrl locationProtocol url = url.
Proof.
  unfold hasHttpScheme, normalizeUrl, replacePrefix. intros Hh.
  destruct (startsWith "://" url) eqn:Hs; [| done].
  apply prefix_split in Hs. rewrite Hs in Hh. discriminate Hh.
Qed.

(** What [urlWithProtocol] returns, by the shape of its argument. *)
Lemma urlWithProtocol_cases url :
  (hasHttpScheme url = true /\ urlWithProtocol locationProtocol url = url)
  \/ (exists rest, url = "://" +:+ rest
                   /\ urlWithProtocol locationProtocol url
                      = (locationProtocol +:+ "//") +:+ rest)
  \/ (hasHttpScheme url = false /\ startsWith "://" url = false
      /\ urlWithProtocol locationProtocol url = (locationProtocol +:+ "//") +:+ url).
Proof.
  unfold urlWithProtocol.
  destruct (hasHttpScheme url) eqn:Hh.
  - left. split; [done |]. unfold hasHttpScheme in Hh.
    apply orb_true_iff in Hh.
    assert (Hc : negb (startsWith "http://" url) && negb (startsWith "https://" url)
                 && negb (startsWith "://" url) = false).
    { destruct Hh as [-> | ->]; simpl; [done |]. by rewrite andb_false_r. }
    rewrite Hc. apply normalizeUrl_http. unfold hasHttpScheme.
    by apply orb_true_iff.
  - right. unfold hasHttpScheme in Hh. apply orb_false_iff in Hh as [-> ->]. simpl.
    destruct (startsWith "://" url) eqn:Hs; simpl.
    + left. apply prefix_split in Hs. eexists. split; [exact Hs |].
      rewrite Hs at 1. apply normalizeUrl_relative.
    + right. split; [done |]. split; [done |]. apply normalizeUrl_relative.
Qed.

(** X3: on a page served over http or https, [urlWithProtocol] returns a
    URL with an http or https scheme, and applying it to its own result
    changes nothing. *)
Theorem urlWithProtocol_idempotent url :
  locationProtocol = "http:" \/ locationProtocol = "https:" ->
  hasHttpScheme (urlWithProtocol locationProtocol url) = true
  /\ urlWithProtocol locationProtocol (urlWithProtocol locationProtocol url)
     = urlWithProtocol locationProtocol url.
Proof.
  intros Hp.
  assert (Hh : hasHttpScheme (urlWithProtocol locationProtocol url) = true).
  { destruct (urlWithProtocol_cases url)
      as [[Hh ->] | [(rest & _ & ->) | (_ & _ & ->)]]; [done | |];
      destruct Hp as [-> | ->];
      first [apply (hasHttpScheme_http rest) | apply (hasHttpScheme_https rest)
            | apply (hasHttpScheme_http url) | apply (hasHttpScheme_https url)]. }
  split; [exact Hh |].
  destruct (urlWithProtocol_cases (urlWithProtocol locationProtocol url))
    as [[_ ->] | [(rest & Hr & _) | (Hn & _)]]; [done | |].
  - rewrite Hr in Hh. discriminate Hh.
  - congruence.
Qed.

End WithProtocol.

Lemma urlWithProtocol_idempotent_witness :
  urlWithProtocol "https:" (urlWithProtocol "https:" "://peer.decentraland.org/content")
  = "https://peer.decentraland.org/content".
Proof.
  destruct (urlWithProtocol_idempotent "https:" "://peer.decentraland.org/content")
    as [_ Hid]; [by right |].
  rewrite Hid. reflexivity.
Defined.

End CommsUrlMore.

(** ** Realm change detection *)

Module SagasMore.

Import Sagas SagasProps.

Section ChangeRealm.

Variable realmToConnectionString : Realm -> string.

(** X4: [changeRealm] puts nothing or the one action [setCatalystRealm] of
    the selected realm, and it puts it exactly when a current realm is set
    and its server name differs from the selected realm's: a change of
    hostname or protocol alone puts nothing. *)
Theorem changeRealm_puts currentRealm otherRealm :
  (puts (changeRealm realmToConnectionString currentRealm otherRealm) = []
   \/ puts (changeRealm realmToConnectionString currentRealm otherRealm)
      = [setCatalystRealm otherRealm])
  /\ (puts (changeRealm realmToConnectionString currentRealm otherRealm)
      = [setCatalystRealm otherRealm]
      <-> exists current, currentRealm = Some current
                          /\ serverName current <> serverName otherRealm).
Proof.
  destruct currentRealm as [current|]; simpl.
  - destruct (sameRealm current otherRealm) eqn:Hs; simpl.
    + apply sameRealm_iff_serverName in Hs. split; [by left |]. split; [done |].
      intros (c & [= <-] & Hne). contradiction.
    + split; [by right |]. split; [| done]. intros _. exists current. split; [done |].
      intros Heq. apply sameRealm_iff_serverName in Heq. congruence.
  - split; [by left |]. split; [done |]. intros (c & Hc & _). discriminate.
Qed.

End ChangeRealm.

Lemma markTalking_find userId playing peers :
  markTalking userId playing peers
  = match list_find (fun p => identity p = Some userId) peers with
    | Some (i, p) => <[i := set_talking playing p]> peers
    | None => peers
    end.
Proof.
  induction peers as [|q rest IH]; simpl; [done |].
  destruct (decide (identity q = Some userId)) as [Hq | Hq].
  - by rewrite bool_decide_eq_true_2.
  - rewrite bool_decide_eq_false_2 by done. rewrite IH.
    destruct (list_find _ rest) as [[i p]|]; done.
Qed.

(** X5: [updateUserVoicePlaying] sets the talking flag of the first peer
    whose identity is the user id and of no other peer: a later peer of the
    same identity keeps its flag, and no peer is added, removed or moved.
    The Unity interface is told once, also when there is no comms context or
    no such peer. *)
Theorem updateUserVoicePlaying_marks_first_match userId playing commsContext :
  snd (updateUserVoicePlaying userId playing commsContext)
  = [SetUserTalking userId playing]
  /\ (commsContext = None ->
      fst (updateUserVoicePlaying userId playing commsContext) = None)
  /\ (forall peers,
        commsContext = Some peers ->
        exists peers',
          fst (updateUserVoicePlaying userId playing commsContext) = Some peers'
          /\ peers' = match list_find (fun p => identity p = Some userId) peers with
                      | Some (i, p) => <[i := set_talking playing p]> peers
                      | None => peers
                      end
          /\ length peers' = length peers
          /\ (forall i j p q,
                i < j -> peers !! i = Some p -> identity p = Some userId ->
                peers !! j = Some q -> peers' !! j = Some q)).
Proof.
  split; [done |]. split; [by intros -> |].
  intros peers ->. simpl. eexists. split; [done |].
  rewrite markTalking_find.
  destruct (list_find _ peers) as [[k r]|] eqn:Hfind.
  - split; [done |]. split; [by rewrite length_insert |].
    intros i j p q Hij Hp Hid Hq.
    apply list_find_Some in Hfind as (Hk & _ & Hfirst).
    assert (k <= i) as Hki.
    { destruct (decide (k <= i)) as [|Hgt]; [done |].
      exfalso. apply (Hfirst i p Hp); [lia | done]. }
    rewrite list_lookup_insert_ne by lia. done.
  - split; [done |]. split; [done |]. by intros.
Qed.

Lemma updateUserVoicePlaying_marks_first_match_witness :
  exists peers',
    fst (updateUserVoicePlaying "alice" true
           (Some [mkPeerInfo (Some "alice") false; mkPeerInfo (Some "alice") false]))
    = Some peers'
    /\ peers' !! 0 = Some (mkPeerInfo (Some "alice") true)
    /\ peers' !! 1 = Some (mkPeerInfo (Some "alice") false).
Proof.
  destruct (updateUserVoicePlaying_marks_first_match "alice" true
              (Some [mkPeerInfo (Some "alice") false; mkPeerInfo (Some "alice") false]))
    as (_ & _ & Hsome).
  destruct (Hsome _ eq_refl) as (peers' & Hfst & Hfind & _ & Hlater).
  exists peers'. split; [exact Hfst |]. split.
  - rewrite Hfind. reflexivity.
  - apply (Hlater 0 1 (mkPeerInfo (Some "alice") false)); [lia | reflexivity ..].
Defined.

End SagasMore.

(** ** The broker transport *)

Module BrokerMore.

Import WS Broker BrokerProps.

Section Facts.

Context `{Proto}.
Variable brokerUrl : string.

#[local] Abbreviation step := (Broker.step brokerUrl).
#[local] Abbreviation run := (Broker.run brokerUrl).

(** A TOPIC_FW, TOPIC_IDENTITY_FW or PING frame is handed to the
    observers once, as the raw frame under the topic LEGACY; the alias, the
    future, the log and the sockets stay as they are. *)
Theorem forwarded_frame_notifies_once s msg t :
  getType msg = Some t -> forwarded t = true ->
  onMessageObservable (onmessageHandler msg s)
  = onMessageObservable s ++ [mkTransportMessage "LEGACY" msg]
  /\ alias (onmessageHandler msg s) = alias s
  /\ connected (onmessageHandler msg s) = connected s
  /\ logger (onmessageHandler msg s) = logger s
  /\ ws (onmessageHandler msg s) = ws s
  /\ sockets (onmessageHandler msg s) = sockets s.
Proof.
  intros Hty Hf. unfold onmessageHandler, onWsMessage. rewrite Hty.
  destruct t; try discriminate Hf;
    unfold mbind, M_bind, bind, modify; simpl;
    unfold dispatchTopicDurationStart; by destruct (stats s).
Qed.

(** X6: a frame whose header does not decode, or whose type is neither
    WELCOME nor a forwarded one, is dropped: one line is logged (an error
    for the undecodable header, a warning otherwise), no observer is
    notified, and alias, future and sockets stay as they are. *)
Theorem other_frame_is_dropped s msg :
  getType msg = None
  \/ (exists t, getType msg = Some t /\ t <> WELCOME /\ forwarded t = false) ->
  (exists line, logger (onmessageHandler msg s) = logger s ++ [line]
                /\ level line = match getType msg with
                                | None => LError
                                | Some _ => LWarn
                                end)
  /\ onMessageObservable (onmessageHandler msg s) = onMessageObservable s
  /\ alias (onmessageHandler msg s) = alias s
  /\ connected (onmessageHandler msg s) = connected s
  /\ ws (onmessageHandler msg s) = ws s
  /\ sockets (onmessageHandler msg s) = sockets s.
Proof.
  unfold onmessageHandler, onWsMessage.
  intros [Hn | (t & Hty & Hw & Hf)].
  - rewrite Hn. simpl. split; [by eexists |]. done.
  - rewrite Hty.
    destruct t; try contradiction; try discriminate Hf;
      unfold mbind, M_bind, bind, modify; simpl;
      unfold incrementRecv; destruct (stats s); simpl;
      (split; [by eexists | done]).
Qed.

Lemma broker_sockets_on_socket i f s j :
  sockets (on_socket i f s) !! j
  = if decide (i = j) then f <$> sockets s !! j else sockets s !! j.
Proof.
  unfold on_socket. destruct (sockets s !! i) as [w|] eqn:Hw; simpl.
  - destruct (decide (i = j)) as [<- | Hne].
    + rewrite list_lookup_insert_eq by (by eapply lookup_lt_Some). by rewrite Hw.
    + by rewrite list_lookup_insert_ne.
  - destruct (decide (i = j)) as [<- | Hne]; [by rewrite Hw | done].
Qed.

Lemma sockets_ok_ext s s' :
  ws s' = ws s -> sockets s' = sockets s -> sockets_ok s -> sockets_ok s'.
Proof. unfold sockets_ok. intros -> ->. done. Qed.

(** Updating a socket keeps [sockets_ok] when the update keeps a CLOSED
    socket CLOSED and cleared handlers cleared. *)
Lemma sockets_ok_on_socket i f s :
  sockets_ok s ->
  (forall w, readyState w = CLOSED -> readyState (f w) = CLOSED) ->
  (forall w, onmessage w = false /\ onerror w = false ->
             onmessage (f w) = false /\ onerror (f w) = false) ->
  sockets_ok (on_socket i f s).
Proof.
  intros Hok Hc Hh j w'. rewrite broker_sockets_on_socket, on_socket_ws.
  destruct (decide (i = j)) as [<- | Hne]; [| apply Hok].
  destruct (sockets s !! i) as [w|] eqn:Hw; [| done]. simpl.
  intros [= <-] Hnh. destruct (Hok i w Hw Hnh) as [Hcl | Hno]; [left | right]; auto.
Qed.

Lemma sockets_ok_send msg s : sockets_ok s -> sockets_ok (exec (sendCoordinatorMessage msg) s).
Proof.
  intros Hok. unfold exec.
  destruct (sendCoordinatorMessage_cases msg s) as [-> | (j & w & Hj & Hw & Ho & ->)];
    [done |]. simpl.
  intros k w'. simpl. destruct (decide (j = k)) as [<- | Hne].
  - rewrite Hj. by intros _ [].
  - rewrite list_lookup_insert_ne by done. apply Hok.
Qed.

Lemma sockets_ok_onmessage msg s : sockets_ok s -> sockets_ok (onmessageHandler msg s).
Proof.
  intros Hok. unfold onmessageHandler, onWsMessage.
  destruct (incrementRecv_fields (length msg) s) as (_ & Hw & Hs).
  destruct (dispatch_fields s) as (_ & Hdw & Hds).
  destruct (getType msg) as [[| | | | |tag]|]; simpl;
    unfold mbind, M_bind, bind, modify; simpl;
    try (by apply (sockets_ok_ext s)).
  destruct (getAlias msg) as [a|]; simpl; [| by apply (sockets_ok_ext s)].
  set (s1 := log LInfo "my alias is" (set_alias (Some a) (incrementRecv (length msg) s))).
  assert (Hok1 : sockets_ok s1) by (by apply (sockets_ok_ext s)).
  pose proof (sockets_ok_send (serializeConnect (mkConnect CONNECT 0 a)) s1 Hok1) as Hsend.
  unfold exec in Hsend.
  destruct (sendCoordinatorMessage _ s1) as [[[]|e] s2]; simpl in *.
  - by apply (sockets_ok_ext s2).
  - by apply (sockets_ok_ext s2).
Qed.

Lemma sockets_ok_step s ev : sockets_ok s -> sockets_ok (step s ev).
Proof.
  intros Hok. destruct ev as [| msg r | | i | i | i msg | i | i]; simpl.
  - unfold exec, connect. destruct (ws s) eqn:Hws; [done |]. unfold connectWS.
    rewrite Hws. simpl. intros j w Hw Hne. simpl in *.
    assert (j <> length (sockets s)) by congruence.
    apply lookup_lt_Some in Hw as Hlt. rewrite length_app in Hlt. simpl in Hlt.
    rewrite lookup_app_l in Hw by lia. apply (Hok j w Hw). congruence.
  - by apply sockets_ok_send.
  - unfold exec, disconnect. destruct (ws s) as [i|] eqn:Hws; [| done]. simpl.
    intros j w'. simpl. rewrite broker_sockets_on_socket.
    destruct (decide (i = j)) as [<- | Hne].
    + destruct (sockets s !! i) as [w|]; [| done]. simpl. intros [= <-] _.
      right. unfold WS.close, clear_handlers. simpl. by destruct (readyState w).
    + intros Hw _. apply (Hok j w' Hw). congruence.
  - apply sockets_ok_on_socket; [done | |].
    + intros w Hc. destruct (decide (readyState w = CONNECTING)); [congruence | done].
    + intros w Hh. by destruct (decide (readyState w = CONNECTING)).
  - apply sockets_ok_on_socket; [done | |].
    + intros w Hc. destruct (decide (readyState w = OPEN)); [congruence | done].
    + intros w Hh. by destruct (decide (readyState w = OPEN)).
  - destruct (sockets s !! i) as [w|]; [| done].
    destruct (bool_decide (readyState w = OPEN) && onmessage w); [| done].
    by apply sockets_ok_onmessage.
  - destruct (sockets s !! i) as [w|] eqn:Hw; [| done].
    destruct (decide (readyState w = CLOSED)); [done |].
    assert (Hok1 : sockets_ok (on_socket i (set_readyState CLOSED) s))
      by (by apply sockets_ok_on_socket).
    destruct (onerror w) eqn:He; [| done].
    unfold onerrorHandler. intros j w'. simpl. rewrite broker_sockets_on_socket.
    destruct (decide (i = j)) as [<- | Hne].
    + rewrite Hw. simpl. intros [= <-] _. by left.
    + intros Hw' _. apply (Hok j w' Hw'). intros Hj.
      destruct (decide (ws s = Some i)) as [Hi | Hi]; [congruence |].
      destruct (Hok i w Hw Hi) as [? | [_ ?]]; congruence.
  - destruct (sockets s !! i) as [w|] eqn:Hw; [| done].
    destruct (decide (readyState w = CLOSED)); [done |].
    by apply sockets_ok_on_socket.
Qed.

Lemma sockets_ok_run s tr : sockets_ok s -> sockets_ok (run s tr).
Proof.
  revert s. induction tr as [|ev tr IH]; intros s Hok; [done |].
  simpl. apply IH. by apply sockets_ok_step.
Qed.

Lemma sockets_ok_init : sockets_ok init.
Proof. intros j w Hw. by destruct j. Qed.

(** X7: in every reachable state, a WELCOME frame that carries an alias
    (it arrives on an open socket whose message handler is set) finds that
    socket held by the transport, is answered with the CONNECT frame
    [from = alias, to = 0] on it, and leaves the future resolved. *)
Theorem welcome_is_answered tr i w msg a :
  sockets (run init tr) !! i = Some w ->
  readyState w = OPEN -> onmessage w = true ->
  getType msg = Some WELCOME -> getAlias msg = Some a ->
  ws (run init tr) = Some i
  /\ alias (run init (tr ++ [SocketMessage i msg])) = Some a
  /\ connected (run init (tr ++ [SocketMessage i msg])) = Resolved
  /\ sockets (run init (tr ++ [SocketMessage i msg])) !! i
     = Some (transmit (serializeConnect (mkConnect CONNECT 0 a)) w).
Proof.
  intros Hw Ho Hm Hty Hal.
  pose proof (sockets_ok_run init tr sockets_ok_init) as Hok.
  assert (Hi : ws (run init tr) = Some i).
  { destruct (decide (ws (run init tr) = Some i)) as [Hi | Hi]; [done |].
    destruct (Hok i w Hw Hi) as [? | [? _]]; congruence. }
  split; [exact Hi |]. rewrite run_snoc.
  set (s := run init tr) in *. simpl. rewrite Hw, Ho, Hm.
  rewrite bool_decide_eq_true_2 by done. simpl.
  unfold onmessageHandler, onWsMessage. rewrite Hty, Hal.
  unfold mbind, M_bind, bind, modify. simpl.
  destruct (incrementRecv_fields (length msg) s) as (Hc & Hws & Hso).
  set (s1 := log LInfo "my alias is" (set_alias (Some a) (incrementRecv (length msg) s))).
  assert (Hsend : sendCoordinatorMessage (serializeConnect (mkConnect CONNECT 0 a)) s1
                  = (Ok tt, set_sockets
                              (<[i := transmit (serializeConnect (mkConnect CONNECT 0 a)) w]>
                                 (sockets s1)) s1)).
  { apply (send_open_transmits s1 _ true i w); subst s1; simpl; congruence. }
  rewrite Hsend. simpl. repeat split.
  - rewrite Hc.
    pose proof (run_never_rejects brokerUrl init tr (fun F => F)) as Hnr.
    fold s in Hnr. by destruct (connected s).
  - apply list_lookup_insert_eq. rewrite Hso. by eapply lookup_lt_Some.
Qed.

(** X8: once resolved, the future stays resolved through every later
    event, a disconnect and a new connection included: from then on
    [await this.connected] completes at once, whatever the state of the
    socket. *)
Theorem resolved_is_permanent s tr :
  connected s = Resolved ->
  connected (run s tr) = Resolved /\ awaitConnected (run s tr) = Some (Ok tt).
Proof.
  intros Hr.
  assert (Hc : connected (run s tr) = Resolved).
  { revert s Hr. induction tr as [|ev tr IH]; intros s Hr; [done |].
    simpl. apply IH.
    destruct (step_connected brokerUrl s ev)
      as [-> | (?&?&?&?&?&_&_&_&_&_&_&->&_)]; [done |].
    by rewrite Hr. }
  split; [exact Hc |]. unfold awaitConnected. by rewrite Hc.
Qed.

Lemma step_alias s ev : is_Some (alias s) -> is_Some (alias (step s ev)).
Proof.
  intros Ha.
  assert (Hon : forall i f, alias (on_socket i f s) = alias s)
    by (intros i f; unfold on_socket; by destruct (sockets s !! i)).
  destruct ev as [| msg r | | i | i | i msg | i | i].
  - simpl. unfold exec, connect, connectWS. by destruct (ws s).
  - simpl. unfold exec, send.
    by destruct (sendCoordinatorMessage_cases msg s) as [-> | (j & w & _ & _ & _ & ->)].
  - simpl. unfold exec, disconnect. destruct (ws s); simpl; [by rewrite Hon | done].
  - simpl. by rewrite Hon.
  - simpl. by rewrite Hon.
  - destruct (step_connected brokerUrl s (SocketMessage i msg))
      as [_ | (?&?&?&?&?&_&_&_&_&_&_&_&Hal&_)]; [| rewrite Hal; by eexists].
    simpl. destruct (sockets s !! i) as [wi|]; [| done].
    destruct (bool_decide (readyState wi = OPEN) && onmessage wi); [| done].
    unfold onmessageHandler, onWsMessage.
    assert (Hinc : alias (incrementRecv (length msg) s) = alias s)
      by (unfold incrementRecv; by destruct (stats s)).
    assert (Hdis : alias (dispatchTopicDurationStart s) = alias s)
      by (unfold dispatchTopicDurationStart; by destruct (stats s)).
    destruct (getType msg) as [[| | | | |tag]|]; simpl;
      unfold mbind, M_bind, bind, modify; simpl; rewrite ?Hinc, ?Hdis; try done.
    destruct (getAlias msg) as [a|]; simpl; [| by rewrite Hinc].
    match goal with |- context [sendCoordinatorMessage ?m ?s1] =>
      destruct (sendCoordinatorMessage_cases m s1) as [-> | (j & w & _ & _ & _ & ->)]
    end; by simpl.
  - simpl. destruct (sockets s !! i) as [wi|]; [| done].
    destruct (decide (readyState wi = CLOSED)); [done |].
    destruct (onerror wi); simpl; by rewrite Hon.
  - simpl. destruct (sockets s !! i) as [wi|]; [| done].
    destruct (decide (readyState wi = CLOSED)); [done |]. by rewrite Hon.
Qed.

(** X9: in every reachable state in which the future is resolved, an
    alias is assigned. *)
Theorem resolved_has_alias tr :
  connected (run init tr) = Resolved -> is_Some (alias (run init tr)).
Proof.
  induction tr as [|ev tr IH] using rev_ind; [discriminate |].
  rewrite run_snoc. intros Hr.
  destruct (step_connected brokerUrl (run init tr) ev)
    as [Heq | (?&?&a&?&?&_&_&_&_&_&_&_&Hal&_)].
  - apply step_alias, IH. congruence.
  - rewrite Hal. by eexists.
Qed.

(** X10: the close event of the held socket runs no code of the
    transport: the transport keeps the dead socket, so [connect] opens no
    new one and every [send] throws. *)
Theorem close_event_leaves_dead_socket s i w :
  ws s = Some i -> sockets s !! i = Some w -> readyState w <> CLOSED ->
  ws (step s (SocketClosed i)) = Some i
  /\ sockets (step s (SocketClosed i)) !! i = Some (set_readyState CLOSED w)
  /\ logger (step s (SocketClosed i)) = logger s
  /\ step (step s (SocketClosed i)) CallConnect = step s (SocketClosed i)
  /\ (forall msg reliable,
        send msg reliable (step s (SocketClosed i))
        = (Throw notReady, step s (SocketClosed i))).
Proof.
  intros Hi Hw Hno. simpl. rewrite Hw.
  destruct (decide (readyState w = CLOSED)); [contradiction |].
  set (s' := on_socket i (set_readyState CLOSED) s).
  assert (Hi' : ws s' = Some i) by (subst s'; by rewrite on_socket_ws).
  assert (Hw' : sockets s' !! i = Some (set_readyState CLOSED w)).
  { subst s'. rewrite broker_sockets_on_socket, Hw. by destruct (decide (i = i)). }
  split; [exact Hi' |]. split; [exact Hw' |]. split.
  { subst s'. unfold on_socket. by rewrite Hw. }
  split.
  - unfold exec, connect. by rewrite Hi'.
  - intros msg reliable. unfold send, sendCoordinatorMessage. by rewrite Hi', Hw'.
Qed.

(** X11: [disconnect] clears the handlers of the socket it drops: frames
    that still arrive on it are not handled at all, its error event logs
    nothing, and a second [disconnect] changes nothing. *)
Theorem disconnect_silences_socket s i w :
  ws s = Some i -> sockets s !! i = Some w ->
  ws (exec disconnect s) = None
  /\ sockets (exec disconnect s) !! i = Some (WS.close (clear_handlers w))
  /\ (forall msg, step (exec disconnect s) (SocketMessage i msg) = exec disconnect s)
  /\ logger (step (exec disconnect s) (SocketError i)) = logger s
  /\ exec disconnect (exec disconnect s) = exec disconnect s.
Proof.
  intros Hi Hw.
  assert (Hd : exec disconnect s
               = set_ws None (on_socket i (fun w => WS.close (clear_handlers w)) s))
    by (unfold exec, disconnect; by rewrite Hi).
  assert (Hw' : sockets (exec disconnect s) !! i = Some (WS.close (clear_handlers w))).
  { rewrite Hd. simpl. rewrite broker_sockets_on_socket, Hw. by destruct (decide (i = i)). }
  assert (Hm : onmessage (WS.close (clear_handlers w)) = false
               /\ onerror (WS.close (clear_handlers w)) = false)
    by (unfold WS.close, clear_handlers; simpl; by destruct (readyState w)).
  destruct Hm as [Hm He].
  assert (Hn : ws (exec disconnect s) = None) by (by rewrite Hd).
  assert (Hl : logger (exec disconnect s) = logger s)
    by (rewrite Hd; simpl; unfold on_socket; by destruct (sockets s !! i)).
  clear Hd. revert Hw' Hn Hl. generalize (exec disconnect s). intros s' Hw' Hn Hl.
  split; [done |]. split; [exact Hw' |]. split; [| split].
  - intros msg. cbn [Broker.step]. rewrite Hw', Hm. by rewrite andb_false_r.
  - cbn [Broker.step]. rewrite Hw', He.
    destruct (decide (readyState (WS.close (clear_handlers w)) = CLOSED)); [done |].
    unfold on_socket. by rewrite Hw'.
  - unfold exec, disconnect. by rewrite Hn.
Qed.

(** The sockets after a frame was handled: as before, or with the CONNECT
    reply to a WELCOME added to the wire of one of them. *)
Lemma onmessage_sockets msg s :
  sockets (onmessageHandler msg s) = sockets s
  \/ exists a k w,
       getType msg = Some WELCOME /\ getAlias msg = Some a
       /\ sockets s !! k = Some w
       /\ sockets (onmessageHandler msg s)
          = <[k := transmit (serializeConnect (mkConnect CONNECT 0 a)) w]> (sockets s).
Proof.
  unfold onmessageHandler, onWsMessage.
  destruct (incrementRecv_fields (length msg) s) as (_ & Hw & Hs).
  destruct (dispatch_fields s) as (_ & Hdw & Hds).
  destruct (getType msg) as [[| | | | |tag]|]; simpl;
    unfold mbind, M_bind, bind, modify; simpl; try (by left).
  destruct (getAlias msg) as [a|]; simpl; [| by left].
  match goal with |- context [sendCoordinatorMessage ?m ?s1] =>
    destruct (sendCoordinatorMessage_cases m s1) as [-> | (j & w & _ & Hj & _ & ->)]
  end; simpl; [by left |].
  right. exists a, j, w. simpl in Hj. rewrite Hs in Hj. rewrite Hs. done.
Qed.

Lemma on_socket_wire i f s j w' :
  (forall w, wire (f w) = wire w) ->
  sockets (on_socket i f s) !! j = Some w' ->
  exists w, sockets s !! j = Some w /\ wire w' = wire w.
Proof.
  intros Hf. rewrite broker_sockets_on_socket.
  destruct (decide (i = j)) as [<- | Hne]; [| by eauto].
  destruct (sockets s !! i) as [w|]; [| done]. simpl. intros [= <-]. eauto.
Qed.

Lemma insert_transmit_wire (l : list WebSocket) k w frame j w' f :
  l !! k = Some w ->
  <[k := transmit frame w]> l !! j = Some w' -> f ∈ wire w' ->
  (exists w0, l !! j = Some w0 /\ f ∈ wire w0) \/ f = frame.
Proof.
  intros Hk Hj Hf. destruct (decide (k = j)) as [<- | Hne].
  - rewrite list_lookup_insert_eq in Hj by (by eapply lookup_lt_Some).
    injection Hj as <-. simpl in Hf. apply elem_of_app in Hf as [Hf | Hf].
    + left. eauto.
    + right. by apply list_elem_of_singleton in Hf.
  - rewrite list_lookup_insert_ne in Hj by done. left. eauto.
Qed.

(** One event adds to the wires only what it may. *)
Lemma step_wire s ev j w' f :
  sockets (step s ev) !! j = Some w' -> f ∈ wire w' ->
  (exists w, sockets s !! j = Some w /\ f ∈ wire w) \/ allowed [ev] f.
Proof.
  assert (Hpres : forall i g, (forall w, wire (g w) = wire w) ->
            sockets (on_socket i g s) !! j = Some w' -> f ∈ wire w' ->
            exists w, sockets s !! j = Some w /\ f ∈ wire w).
  { intros i g Hg Hj Hf. destruct (on_socket_wire i g s j w' Hg Hj) as (w & Hw & Heq).
    exists w. by rewrite <- Heq. }
  destruct ev as [| msg r | | i | i | i msg | i | i]; simpl.
  - unfold exec, connect. destruct (ws s) eqn:Hws; [by eauto |].
    unfold connectWS. rewrite Hws. simpl. intros Hj Hf.
    destruct (decide (j < length (sockets s))) as [Hlt | Hge].
    + rewrite lookup_app_l in Hj by done. eauto.
    + rewrite lookup_app_r in Hj by lia.
      destruct (j - length (sockets s)); simpl in Hj; [| done].
      injection Hj as <-. simpl in Hf. by apply elem_of_nil in Hf.
  - unfold exec, send.
    destruct (sendCoordinatorMessage_cases msg s) as [-> | (k & w & _ & Hk & _ & ->)];
      simpl; [by eauto |].
    intros Hj Hf. destruct (insert_transmit_wire _ k w msg j w' f Hk Hj Hf) as [? | ->];
      [by left |].
    right. left. exists r. apply list_elem_of_singleton. done.
  - unfold exec, disconnect. destruct (ws s) as [i|]; simpl; [| by eauto].
    intros Hj Hf. left. apply (Hpres i (fun w => WS.close (clear_handlers w))); try done.
    intros w. unfold WS.close, clear_handlers. simpl. by destruct (readyState w).
  - intros Hj Hf. left. eapply (Hpres i); [| exact Hj | exact Hf].
    intros w. simpl. by destruct (decide (readyState w = CONNECTING)).
  - intros Hj Hf. left. eapply (Hpres i); [| exact Hj | exact Hf].
    intros w. simpl. by destruct (decide (readyState w = OPEN)).
  - destruct (sockets s !! i) as [wi|]; [| by eauto].
    destruct (bool_decide (readyState wi = OPEN) && onmessage wi); [| by eauto].
    destruct (onmessage_sockets msg s) as [-> | (a & k & w & Hty & Hal & Hk & ->)];
      [by eauto |].
    intros Hj Hf. destruct (insert_transmit_wire _ k w _ j w' f Hk Hj Hf) as [? | ->];
      [by left |].
    right. right. exists i, msg, a. split; [| done]. by apply list_elem_of_singleton.
  - destruct (sockets s !! i) as [wi|]; [| by eauto].
    destruct (decide (readyState wi = CLOSED)); [by eauto |].
    intros Hj Hf. left. apply (Hpres i (set_readyState CLOSED)); try done.
    by destruct (onerror wi).
  - destruct (sockets s !! i) as [wi|]; [| by eauto].
    destruct (decide (readyState wi = CLOSED)); [by eauto |].
    intros Hj Hf. left. by apply (Hpres i (set_readyState CLOSED)).
Qed.

Lemma allowed_app tr1 tr2 f : allowed tr1 f \/ allowed tr2 f -> allowed (tr1 ++ tr2) f.
Proof.
  unfold allowed.
  intros [[(r & Hr) | (i & msg & a & Hm & Hrest)] | [(r & Hr) | (i & msg & a & Hm & Hrest)]].
  - left. exists r. apply elem_of_app. by left.
  - right. exists i, msg, a. split; [apply elem_of_app; by left | done].
  - left. exists r. apply elem_of_app. by right.
  - right. exists i, msg, a. split; [apply elem_of_app; by right | done].
Qed.

(** X12: in every reachable state, every frame on the wire of a socket
    was handed to [send] by a caller or is the CONNECT reply to a WELCOME
    frame the transport received: the transport transmits nothing else. *)
Theorem only_allowed_frames tr j w f :
  sockets (run init tr) !! j = Some w -> f ∈ wire w -> allowed tr f.
Proof.
  revert j w. induction tr as [|ev tr IH] using rev_ind; intros j w Hj Hf.
  - by destruct j.
  - rewrite run_snoc in Hj. apply allowed_app.
    destruct (step_wire _ ev j w f Hj Hf) as [(w0 & Hw0 & Hf0) | Ha]; [| by right].
    left. by apply (IH j w0).
Qed.

End Facts.

#[local] Existing Instance toyProto.

Lemma forwarded_frame_notifies_once_witness :
  onMessageObservable (onmessageHandler [Byte.x06; Byte.x2a] awaitingAlias)
  = [mkTransportMessage "LEGACY" [Byte.x06; Byte.x2a]].
Proof.
  destruct (forwarded_frame_notifies_once awaitingAlias [Byte.x06; Byte.x2a] PING)
    as [Hobs _]; [reflexivity | reflexivity |].
  exact Hobs.
Defined.

Lemma other_frame_is_dropped_witness :
  onMessageObservable (onmessageHandler [] awaitingAlias) = []
  /\ connected (onmessageHandler [Byte.x02] awaitingAlias) = Pending.
Proof.
  split.
  - destruct (other_frame_is_dropped awaitingAlias []) as (_ & Hobs & _);
      [by left | exact Hobs].
  - destruct (other_frame_is_dropped awaitingAlias [Byte.x02]) as (_ & _ & _ & Hc & _);
      [| exact Hc].
    right. exists CONNECT. by repeat split.
Defined.

Lemma welcome_is_answered_witness :
  connected (run brokerUrl0 init handshake) = Resolved
  /\ alias (run brokerUrl0 init handshake) = Some 7%Z.
Proof.
  destruct (welcome_is_answered brokerUrl0 [CallConnect; SocketOpened 0] 0
              (set_readyState OPEN
                 (set_onmessage true (set_onerror true (WS.create brokerUrl0 "comms"))))
              welcome7 7%Z)
    as (_ & Ha & Hc & _); [reflexivity | reflexivity | reflexivity | reflexivity
                           | reflexivity |].
  split; [exact Hc | exact Ha].
Defined.

(** After a handshake, a disconnect and a new [connect]: the new socket is
    still connecting and [await this.connected] already completes. *)
Lemma resolved_is_permanent_witness :
  awaitConnected
    (run brokerUrl0 (run brokerUrl0 init handshake) [CallDisconnect; CallConnect])
  = Some (Ok tt).
Proof.
  apply (resolved_is_permanent brokerUrl0 (run brokerUrl0 init handshake)
           [CallDisconnect; CallConnect]).
  reflexivity.
Defined.

Lemma resolved_has_alias_witness :
  is_Some (alias (run brokerUrl0 init handshake)).
Proof. apply (resolved_has_alias brokerUrl0 handshake). reflexivity. Defined.

Lemma close_event_leaves_dead_socket_witness :
  step brokerUrl0 (step brokerUrl0 awaitingAlias (SocketClosed 0)) CallConnect
  = step brokerUrl0 awaitingAlias (SocketClosed 0).
Proof.
  destruct (close_event_leaves_dead_socket brokerUrl0 awaitingAlias 0
              (set_readyState OPEN
                 (set_onmessage true (set_onerror true (WS.create brokerUrl0 "comms")))))
    as (_ & _ & _ & Hc & _); [reflexivity | reflexivity | discriminate |].
  exact Hc.
Defined.

Lemma disconnect_silences_socket_witness :
  step brokerUrl0 (exec disconnect awaitingAlias) (SocketMessage 0 welcome7)
  = exec disconnect awaitingAlias.
Proof.
  destruct (disconnect_silences_socket brokerUrl0 awaitingAlias 0
              (set_readyState OPEN
                 (set_onmessage true (set_onerror true (WS.create brokerUrl0 "comms")))))
    as (_ & _ & Hm & _); [reflexivity | reflexivity |].
  apply Hm.
Defined.

Lemma only_allowed_frames_witness :
  allowed handshake [Byte.x02; Byte.x00; Byte.x07].
Proof.
  apply (only_allowed_frames brokerUrl0 handshake 0
           (transmit [Byte.x02; Byte.x00; Byte.x07]
              (set_readyState OPEN
                 (set_onmessage true (set_onerror true (WS.create brokerUrl0 "comms")))))).
  - reflexivity.
  - simpl. apply list_elem_of_singleton. reflexivity.
Defined.

End BrokerMore.

(** ** The BFF transport *)

Module BFFMore.

Import WS BFF BFFProps.

Section Facts.

Context {number : Type} `{Proto number}.
Variable bffUrl : string.

#[local] Abbreviation step := (BFF.step (number := number) bffUrl).
#[local] Abbreviation run := (BFF.run (number := number) bffUrl).

Lemma floating_ok {A} (m : M State A) s : fst (floating m s) = Ok tt.
Proof. unfold floating. by destruct (m s) as [[a|e] s']. Qed.

(** X13: handling an inbound frame never throws, whatever the frame and
    the state: every decoding failure is caught where it occurs and the
    promises of [send] and [disconnect] are not awaited. *)
Theorem onWsMessage_never_throws msg s :
  fst (onWsMessage msg s) = Ok tt
  /\ onmessageHandler msg s = exec (onWsMessage msg) s.
Proof.
  assert (Hok : fst (onWsMessage msg s) = Ok tt).
  { unfold onWsMessage.
    destruct (getType msg) as [[| | | | | | | | |tag]|]; simpl; try done.
    - unfold mbind, M_bind, bind, modify. simpl.
      destruct (getPayload msg); simpl; [apply floating_ok | done].
    - unfold mbind, M_bind, bind, modify. simpl. apply floating_ok.
    - by destruct (getTopicData msg).
    - by destruct (getConnStr msg). }
  split; [exact Hok |]. unfold onmessageHandler, caught, exec.
  destruct (onWsMessage msg s) as [[[]|e] s']; [done | discriminate Hok].
Qed.

(** A TOPIC frame whose body decodes is handed once to the topic
    observers as its peer id and body, an ISLAND_CHANGES frame whose body
    decodes once to the island observers as its connection string; nothing
    else of the transport changes, not even the log. *)
Theorem topic_and_island_frames_are_delivered s msg :
  (forall d,
      getType msg = Some MessageType.TOPIC -> getTopicData msg = Some d ->
      onmessageHandler msg s
      = set_onTopicMessageObservable (onTopicMessageObservable s ++ [d]) s)
  /\ (forall connStr,
        getType msg = Some MessageType.ISLAND_CHANGES -> getConnStr msg = Some connStr ->
        onmessageHandler msg s
        = set_onIslandChangeObservable (onIslandChangeObservable s ++ [connStr]) s).
Proof.
  split; intros d Hty Hd; unfold onmessageHandler, caught, onWsMessage;
    by rewrite Hty, Hd.
Qed.

(** X15: [setTopics] and [sendTopicMessage] never report a failure to
    their caller; on a transport without a socket they return normally,
    transmit nothing, and the transport-closed rejection of [send] is left
    unhandled. *)
Theorem topic_calls_hide_send_failure s :
  (forall rawTopics, fst (setTopics rawTopics s) = Ok tt)
  /\ (forall topic body, fst (sendTopicMessage topic body s) = Ok tt)
  /\ (ws s = None ->
      (forall rawTopics,
          setTopics rawTopics s
          = (Ok tt, set_unhandled (unhandled s ++ [transportClosed]) s))
      /\ (forall topic body,
            sendTopicMessage topic body s
            = (Ok tt, set_unhandled (unhandled s ++ [transportClosed]) s))).
Proof.
  split; [intros; apply floating_ok |]. split; [intros; apply floating_ok |].
  intros Hn. split; intros; unfold setTopics, sendTopicMessage, floating;
    by rewrite send_without_socket.
Qed.

(** X16: [connect] does not wait for the socket to open: when a call of
    [connect] on a transport without a socket has resumed, the heartbeat
    timer runs and Connected is logged while the new socket is still
    CONNECTING. *)
Theorem connect_does_not_wait_for_open s :
  ws s = None ->
  exists w,
    ws (step (step s CallConnect) ConnectResumes) = Some (length (sockets s))
    /\ sockets (step (step s CallConnect) ConnectResumes) !! length (sockets s) = Some w
    /\ readyState w = CONNECTING
    /\ url w = bffUrl /\ subprotocol w = "comms"
    /\ heartBeatInterval (step (step s CallConnect) ConnectResumes) = Some (nextTimer s)
    /\ nextTimer s ∈ timers (step (step s CallConnect) ConnectResumes)
    /\ last (logger (step (step s CallConnect) ConnectResumes))
       = Some (mkLog LLog "Connected").
Proof.
  intros Hn. simpl. unfold exec, connect_start, connectWS.
  unfold mbind, M_bind, bind, modify. rewrite Hn. simpl.
  eexists. split; [done |]. split.
  { rewrite lookup_app_r by done. by rewrite Nat.sub_diag. }
  repeat split; try done.
  - left.
  - by rewrite last_snoc.
Qed.

(** *** What an event does to the core of the state *)

Lemma core_on_socket i f s : core (on_socket i f s) = core s.
Proof.
  unfold on_socket, core. destruct (sockets s !! i); [| done]. simpl.
  by rewrite length_insert.
Qed.

Lemma status_on_socket i f s :
  (forall w, status (f w) = status w) ->
  status <$> sockets (on_socket i f s) = status <$> sockets s.
Proof.
  intros Hf. unfold on_socket. destruct (sockets s !! i) as [w|] eqn:Hw; [| done].
  simpl. rewrite list_fmap_insert, Hf. apply list_insert_id.
  by rewrite list_lookup_fmap, Hw.
Qed.

Lemma send_as_on_socket msg s :
  exists f, (forall w, status (f w) = status w)
            /\ exec (send msg) s = on_socket (default 0 (ws s)) f s.
Proof.
  unfold exec, send. destruct (ws s) as [i|] eqn:Hi; simpl.
  - destruct (sockets s !! i) as [w|] eqn:Hw; simpl.
    + exists (fun w => (WS.send msg w).2). split.
      * intros w0. unfold WS.send, status. by destruct (readyState w0) eqn:Hr; simpl;
          rewrite ?Hr.
      * unfold on_socket. by rewrite Hw.
    + exists (fun w => w). split; [done |]. unfold on_socket. by rewrite Hw.
  - exists (fun w => w). split; [done |]. by rewrite on_socket_id.
Qed.

Lemma core_send msg s :
  core (exec (send msg) s) = core s
  /\ status <$> sockets (exec (send msg) s) = status <$> sockets s.
Proof.
  destruct (send_as_on_socket msg s) as (f & Hf & ->).
  split; [apply core_on_socket | by apply status_on_socket].
Qed.

Lemma core_floating_send msg s :
  core (exec (floating (send msg)) s) = core s
  /\ status <$> sockets (exec (floating (send msg)) s) = status <$> sockets s.
Proof.
  pose proof (core_send msg s) as Hs. unfold exec, floating in *.
  by destruct (send msg s) as [[[]|e] s'].
Qed.

Lemma core_sendHeartBeat position now1 now2 s :
  core (exec (sendHeartBeat position now1 now2) s) = core s
  /\ core (exec (floating (sendHeartBeat position now1 now2)) s) = core s.
Proof.
  destruct position as [p|]; [| done]. rewrite sendHeartBeat_known.
  split; [apply core_send | apply core_floating_send].
Qed.

(** [disconnect] seen on the core. *)
Lemma core_disconnect s :
  core (exec disconnect s)
  = (None, heartBeatInterval s, afterClear s, nextTimer s,
     onDisconnectObservable s + held s, length (sockets s)).
Proof.
  unfold exec, disconnect, core, afterClear, held.
  destruct (heartBeatInterval s) as [t|] eqn:Hhb; simpl.
  - destruct (ws s) as [i|] eqn:Hi; simpl.
    + pose proof (core_on_socket i (fun w => WS.close (clear_handlers w))
                    (clearInterval t s)) as Hc.
      unfold core in Hc. simpl in Hc. injection Hc as _ Hh Ht Hn Ho Hl.
      rewrite ?Hh, ?Ht, ?Hn, ?Ho, ?Hl, ?Hhb. by rewrite ?Nat.add_1_r, ?Nat.add_0_r.
    + rewrite ?Hhb, ?Hi. by rewrite ?Nat.add_1_r, ?Nat.add_0_r.
  - destruct (ws s) as [i|] eqn:Hi; simpl.
    + pose proof (core_on_socket i (fun w => WS.close (clear_handlers w)) s) as Hc.
      unfold core in Hc. injection Hc as _ Hh Ht Hn Ho Hl.
      rewrite ?Hh, ?Ht, ?Hn, ?Ho, ?Hl, ?Hhb. by rewrite ?Nat.add_1_r, ?Nat.add_0_r.
    + rewrite ?Hhb, ?Hi. by rewrite ?Nat.add_1_r, ?Nat.add_0_r.
Qed.

Lemma core_onmessage s msg :
  getType msg <> Some MessageType.VALIDATION_FAILURE ->
  core (onmessageHandler msg s) = core s
  /\ status <$> sockets (onmessageHandler msg s) = status <$> sockets s.
Proof.
  intros Hty. unfold onmessageHandler, caught, onWsMessage.
  destruct (getType msg) as [[| | | | | | | | |tag]|]; simpl; try done.
  - unfold mbind, M_bind, bind, modify. simpl.
    destruct (getPayload msg) as [payload|]; simpl; [| done].
    match goal with |- context [floating (send ?m) ?s1] =>
      pose proof (core_floating_send m s1) as Hs;
      pose proof (floating_ok (send m) s1) as Hok end.
    unfold exec in Hs. destruct (floating _ _) as [[[]|e] s']; [| discriminate Hok].
    exact Hs.
  - by destruct (getTopicData msg).
  - by destruct (getConnStr msg).
Qed.

(** X17: a frame that is not a VALIDATION_FAILURE never tears the
    transport down: the socket reference, the heartbeat timer, the number
    of disconnect notifications and the state and handlers of every socket
    are as before. *)
Theorem only_validation_failure_tears_down s msg :
  getType msg <> Some MessageType.VALIDATION_FAILURE ->
  ws (onmessageHandler msg s) = ws s
  /\ heartBeatInterval (onmessageHandler msg s) = heartBeatInterval s
  /\ timers (onmessageHandler msg s) = timers s
  /\ onDisconnectObservable (onmessageHandler msg s) = onDisconnectObservable s
  /\ status <$> sockets (onmessageHandler msg s) = status <$> sockets s.
Proof.
  intros Hty. destruct (core_onmessage s msg Hty) as [Hc Hst].
  unfold core in Hc. injection Hc as -> -> -> _ -> _. done.
Qed.

(** The events seen on the core: an event leaves it alone, or tears the
    transport down, or creates a socket (a call of [connect]), or starts
    the heartbeat timer (the resumption of [connect]). *)
Lemma step_core s ev :
  core (step s ev) = core s
  \/ core (step s ev)
     = (None, heartBeatInterval s, afterClear s, nextTimer s,
        onDisconnectObservable s + held s, length (sockets s))
  \/ (exists i, ws (step s ev) = Some i
      /\ core (step s ev)
         = (Some i, heartBeatInterval s, timers s, nextTimer s,
            onDisconnectObservable s, S (length (sockets s))))
  \/ core (step s ev)
     = (ws s, Some (nextTimer s), nextTimer s :: timers s, Pos.succ (nextTimer s),
        onDisconnectObservable s, length (sockets s)).
Proof.
  assert (Hdis : forall s0, core s0 = core s ->
            core (exec disconnect s0)
            = (None, heartBeatInterval s, afterClear s, nextTimer s,
               onDisconnectObservable s + held s, length (sockets s))).
  { intros s0 Hs0. rewrite core_disconnect. unfold core in Hs0.
    injection Hs0 as Hw Hh Ht Hn Ho Hl. unfold afterClear, held.
    by rewrite Hw, Hh, Ht, Hn, Ho, Hl. }
  destruct ev; simpl.
  - unfold exec, connect_start, connectWS, mbind, M_bind, bind, modify.
    destruct (ws s) as [i|] eqn:Hi.
    + destruct (sockets s !! i) as [w|] eqn:Hw.
      * destruct (decide (readyState w = WS.OPEN)); simpl.
        -- left. unfold core. simpl. by rewrite Hi.
        -- right. right. left. eexists. split; [done |].
           pose proof (core_on_socket i WS.close s) as Hc. unfold core in *. simpl.
           injection Hc as _ Hh Ht Hn Ho Hl.
           rewrite Hh, Ht, Hn, Ho, length_app, Hl. simpl. by rewrite Nat.add_1_r.
      * simpl. right. right. left. eexists. split; [done |]. unfold core. simpl.
        rewrite length_app. simpl. by rewrite Nat.add_1_r.
    + simpl. right. right. left. eexists. split; [done |]. unfold core. simpl.
      rewrite length_app. simpl. by rewrite Nat.add_1_r.
  - destruct (connecting s); [by left |]. right. right. right. done.
  - right. left. by apply Hdis.
  - left. apply core_send.
  - left. apply core_floating_send.
  - left. apply core_floating_send.
  - left. apply core_sendHeartBeat.
  - destruct (bool_decide (t ∈ timers s)); [| by left]. left. apply core_sendHeartBeat.
  - left. apply core_on_socket.
  - left. apply core_on_socket.
  - destruct (sockets s !! i) as [w|]; [| by left].
    destruct (bool_decide (readyState w = WS.OPEN) && onmessage w); [| by left].
    assert (Hcase : getType msg = Some MessageType.VALIDATION_FAILURE
                    \/ getType msg <> Some MessageType.VALIDATION_FAILURE)
      by (destruct (getType msg) as [[]|]; first [by left | by right]).
    destruct Hcase as [Hty | Hty].
    + right. left. unfold onmessageHandler, caught, onWsMessage. rewrite Hty.
      unfold mbind, M_bind, bind, modify, floating. simpl.
      rewrite disconnect_ok. simpl. by apply Hdis.
    + left. by apply core_onmessage.
  - destruct (sockets s !! i) as [w|]; [| by left].
    destruct (decide (readyState w = CLOSED)); [by left |].
    destruct (onerror w); [| left; apply core_on_socket].
    right. left. unfold onerrorHandler. rewrite caught_disconnect.
    apply Hdis. apply (core_on_socket i (set_readyState CLOSED) s).
  - destruct (sockets s !! i) as [w|]; [| by left].
    destruct (decide (readyState w = CLOSED)); [by left |].
    destruct (onclose w); [| left; apply core_on_socket].
    right. left. unfold oncloseHandler. rewrite caught_disconnect.
    apply Hdis. apply core_on_socket.
Qed.

Lemma held_le_1 s : held s <= 1.
Proof. unfold held. destruct (ws s); lia. Qed.

(** X18: an event notifies the disconnect observers exactly when it makes
    the transport drop the socket it held, and then once: replacing the
    socket in [connect] notifies nobody, and so does a [disconnect] without
    a socket. *)
Theorem notified_exactly_when_socket_dropped s ev :
  onDisconnectObservable (step s ev)
  = onDisconnectObservable s + (held s - held (step s ev)).
Proof.
  pose proof (held_le_1 s) as Hle.
  destruct (step_core s ev) as [Hc | [Hc | [(i & Hi & Hc) | Hc]]];
    unfold core in Hc; injection Hc as Hw _ _ _ Ho _; rewrite Ho; unfold held in *;
    rewrite Hw; destruct (ws s); simpl.
  all: lia.
Qed.

(** X19: in every reachable state the disconnect observers have been
    notified at most once per socket created, the held socket not
    counted. *)
Theorem notifications_bounded_by_sockets tr :
  onDisconnectObservable (run init tr) + held (run init tr)
  <= length (sockets (run init tr)).
Proof.
  induction tr as [|ev tr IH] using rev_ind; [cbv; lia |].
  rewrite bff_run_snoc. set (s := run init tr) in *.
  pose proof (held_le_1 s) as Hle.
  destruct (step_core s ev) as [Hc | [Hc | [(i & Hi & Hc) | Hc]]];
    unfold core in Hc; injection Hc as Hw _ _ _ Ho Hl; rewrite Ho, Hl;
    unfold held in *; rewrite Hw; destruct (ws s); simpl in *.
  all: lia.
Qed.

Lemma timers_fresh_step s ev : timers_fresh s -> timers_fresh (step s ev).
Proof.
  intros [Ht Hh].
  destruct (step_core s ev) as [Hc | [Hc | [(i & Hi & Hc) | Hc]]];
    unfold core in Hc; injection Hc as _ Hhb Hti Hn _ _;
    unfold timers_fresh; rewrite Hhb, Hti, Hn.
  - done.
  - split; [| done]. intros t. unfold afterClear.
    destruct (heartBeatInterval s); [| by apply Ht].
    rewrite list_elem_of_filter. intros [_ Hin]. by apply Ht.
  - done.
  - split.
    + intros t [-> | Hin]%elem_of_cons; [lia |]. specialize (Ht t Hin). lia.
    + intros t [= <-]. lia.
Qed.

Lemma timers_fresh_run s tr : timers_fresh s -> timers_fresh (run s tr).
Proof.
  revert s. induction tr as [|ev tr IH]; intros s Hf; [done |].
  simpl. apply IH. by apply timers_fresh_step.
Qed.

Lemma timers_fresh_init : timers_fresh init.
Proof. split; [intros t Ht; by apply elem_of_nil in Ht | intros t Ht; discriminate]. Qed.

Lemma orphan_step s ev t :
  timers_fresh s -> t ∈ timers s -> heartBeatInterval s <> Some t ->
  t ∈ timers (step s ev) /\ heartBeatInterval (step s ev) <> Some t.
Proof.
  intros [Ht Hh] Hin Hne.
  destruct (step_core s ev) as [Hc | [Hc | [(i & Hi & Hc) | Hc]]];
    unfold core in Hc; injection Hc as _ Hhb Hti _ _ _; rewrite Hhb, Hti.
  - done.
  - split; [| done]. unfold afterClear.
    destruct (heartBeatInterval s) as [t0|]; [| done].
    apply list_elem_of_filter. split; [congruence | done].
  - done.
  - split; [by right |]. intros [= Heq]. specialize (Ht t Hin). lia.
Qed.

(** X20: a running interval timer whose handle the transport no longer
    keeps is never stopped: whatever happens afterwards, teardown
    included, it keeps running. *)
Theorem orphan_timer_never_stopped tr0 tr t :
  t ∈ timers (run init tr0) ->
  heartBeatInterval (run init tr0) <> Some t ->
  t ∈ timers (run init (tr0 ++ tr)).
Proof.
  intros Hin Hne.
  assert (Hgen : forall s, timers_fresh s -> t ∈ timers s ->
            heartBeatInterval s <> Some t -> t ∈ timers (run s tr)).
  { clear. induction tr as [|ev tr IH]; intros s Hf Hin Hne; [done |].
    simpl. destruct (orphan_step s ev t Hf Hin Hne) as [Hin' Hne'].
    apply IH; [by apply timers_fresh_step | done | done]. }
  unfold BFF.run. rewrite fold_left_app.
  apply Hgen; [apply timers_fresh_run, timers_fresh_init | done | done].
Qed.

(** X21: in every reachable state at most one socket is OPEN, and it is
    the socket the transport holds, with its three handlers set. *)
Theorem at_most_one_open_socket tr i j wi wj :
  sockets (run init tr) !! i = Some wi -> readyState wi = WS.OPEN ->
  sockets (run init tr) !! j = Some wj -> readyState wj = WS.OPEN ->
  i = j /\ ws (run init tr) = Some i
  /\ onmessage wi = true /\ onerror wi = true /\ onclose wi = true.
Proof.
  intros Hi Hoi Hj Hoj.
  pose proof (wf_run bffUrl init tr wf_init) as Hwf.
  pose proof (wf_open_is_held _ i wi Hwf Hi Hoi) as Hhi.
  pose proof (wf_open_is_held _ j wj Hwf Hj Hoj) as Hhj.
  split; [congruence |]. split; [exact Hhi |].
  destruct (wf_held _ i Hwf Hhi) as (w & Hw & Hm & He & Hc & _).
  rewrite Hi in Hw. by injection Hw as <-.
Qed.

(** X22: in every reachable state, an OPEN challenge whose payload decodes
    (it arrives on the open socket the transport holds) is answered on that
    socket with the VALIDATION frame that carries the signed payload;
    besides one log line nothing else changes. *)
Theorem open_challenge_is_answered tr i w msg payload :
  sockets (run init tr) !! i = Some w ->
  readyState w = WS.OPEN -> onmessage w = true ->
  getType msg = Some MessageType.OPEN -> getPayload msg = Some payload ->
  run init (tr ++ [SocketMessage i msg])
  = on_socket i
      (transmit (serializeValidation
                   (mkValidation MessageType.VALIDATION (signedPayload payload))))
      (log LLog "open message received" (run init tr)).
Proof.
  intros Hw Ho Hm Hty Hp.
  pose proof (wf_run bffUrl init tr wf_init) as Hwf.
  pose proof (wf_open_is_held _ i w Hwf Hw Ho) as Hi.
  rewrite bff_run_snoc. set (s := run init tr) in *. simpl.
  rewrite Hw, Ho, Hm. rewrite bool_decide_eq_true_2 by done. simpl.
  unfold onmessageHandler, caught, onWsMessage. rewrite Hty.
  unfold mbind, M_bind, bind, modify. simpl. rewrite Hp. unfold floating.
  rewrite (bff_send_open_transmits (log LLog "open message received" s) _ i w);
    done.
Qed.

(** X23: a socket that [connect] has replaced keeps its handlers, so when
    its close event fires the transport tears down the socket it holds by
    then, the replacement, and notifies the disconnect observers. *)
Theorem stale_close_event_tears_down s i j wi wj :
  ws s = Some i -> sockets s !! i = Some wi ->
  j <> i -> sockets s !! j = Some wj ->
  readyState wj <> CLOSED -> onclose wj = true ->
  ws (step s (SocketClosed j)) = None
  /\ sockets (step s (SocketClosed j)) !! i = Some (WS.close (clear_handlers wi))
  /\ onDisconnectObservable (step s (SocketClosed j)) = S (onDisconnectObservable s).
Proof.
  intros Hi Hwi Hne Hwj Hnc Hoc. simpl. rewrite Hwj, Hoc.
  destruct (decide (readyState wj = CLOSED)); [contradiction |].
  unfold oncloseHandler. rewrite caught_disconnect.
  set (s1 := on_socket j (set_readyState CLOSED) s).
  assert (Hi1 : ws s1 = Some i) by (subst s1; by rewrite ws_on_socket).
  assert (Hw1 : sockets s1 !! i = Some wi).
  { subst s1. rewrite sockets_on_socket. by destruct (decide (j = i)). }
  destruct (disconnect_held s1 i wi Hi1 Hw1) as (Hn & Hs & _ & Ho & _).
  split; [exact Hn |]. split; [exact Hs |]. rewrite Ho.
  subst s1. by destruct (on_socket_fields j (set_readyState CLOSED) s) as (_ & _ & -> & _).
Qed.

End Facts.

#[local] Existing Instance toyProto.

Lemma topic_and_island_frames_are_delivered_witness :
  onTopicMessageObservable
    (onmessageHandler [Byte.x07; Byte.x00; Byte.x2a] (run bffUrl0 init established))
  = [mkTopicData "peer" [Byte.x2a]].
Proof.
  destruct (topic_and_island_frames_are_delivered (run bffUrl0 init established)
              [Byte.x07; Byte.x00; Byte.x2a]) as [Htopic _].
  rewrite (Htopic (mkTopicData "peer" [Byte.x2a])); reflexivity.
Defined.

Lemma topic_calls_hide_send_failure_witness :
  setTopics ["a"; "b"] (init : State)
  = (Ok tt, set_unhandled [transportClosed] init).
Proof.
  destruct (topic_calls_hide_send_failure init) as (_ & _ & Hclosed).
  destruct Hclosed as [Hset _]; [reflexivity |].
  apply Hset.
Defined.

Lemma connect_does_not_wait_for_open_witness :
  exists w,
    sockets (run bffUrl0 init [CallConnect; ConnectResumes]) !! 0 = Some w
    /\ readyState w = CONNECTING
    /\ last (logger (run bffUrl0 init [CallConnect; ConnectResumes]))
       = Some (mkLog LLog "Connected").
Proof.
  destruct (connect_does_not_wait_for_open bffUrl0 init)
    as (w & _ & Hw & Hr & _ & _ & _ & _ & Hl); [reflexivity |].
  exists w. by repeat split.
Defined.

Lemma only_validation_failure_tears_down_witness :
  ws (onmessageHandler [Byte.x03] (run bffUrl0 init established)) = Some 0.
Proof.
  destruct (only_validation_failure_tears_down (run bffUrl0 init established)
              [Byte.x03]) as (Hws & _); [discriminate |].
  rewrite Hws. reflexivity.
Defined.

Lemma orphan_timer_never_stopped_witness :
  1%positive ∈ timers (run bffUrl0 init (connectedTwice ++ [CallDisconnect; CallDisconnect]))
  /\ ws (run bffUrl0 init (connectedTwice ++ [CallDisconnect; CallDisconnect])) = None.
Proof.
  split; [| vm_compute; reflexivity].
  apply (orphan_timer_never_stopped bffUrl0 connectedTwice
           [CallDisconnect; CallDisconnect] 1%positive).
  - vm_compute. right. left.
  - vm_compute. discriminate.
Defined.

Lemma at_most_one_open_socket_witness :
  ws (run bffUrl0 init established) = Some 0.
Proof.
  destruct (at_most_one_open_socket bffUrl0 established 0 0 openSocket openSocket)
    as (_ & Hheld & _); [reflexivity | reflexivity | reflexivity | reflexivity |].
  exact Hheld.
Defined.

Lemma open_challenge_is_answered_witness :
  wire <$> sockets (run bffUrl0 init (established ++ [SocketMessage 0 [Byte.x01; Byte.x2a]]))
           !! 0
  = Some [[Byte.x02]].
Proof.
  rewrite (open_challenge_is_answered bffUrl0 established 0 openSocket
             [Byte.x01; Byte.x2a] "challenge");
    reflexivity.
Defined.

Lemma stale_close_event_tears_down_witness :
  ws (step bffUrl0 (run bffUrl0 init reconnectedEarly) (SocketClosed 0)) = None
  /\ onDisconnectObservable
       (step bffUrl0 (run bffUrl0 init reconnectedEarly) (SocketClosed 0))
     = S (onDisconnectObservable (run bffUrl0 init reconnectedEarly)).
Proof.
  destruct (stale_close_event_tears_down bffUrl0 (run bffUrl0 init reconnectedEarly) 1 0
              (set_onmessage true (set_onclose true (set_onerror true
                 (WS.create bffUrl0 "comms"))))
              (set_readyState CLOSING
                 (set_onmessage true (set_onclose true (set_onerror true
                    (WS.create bffUrl0 "comms"))))))
    as (Hn & _ & Ho);
    [reflexivity | reflexivity | discriminate | reflexivity | discriminate
    | reflexivity |].
  split; [exact Hn | exact Ho].
Defined.

End BFFMore.

(** ** What the observers of the two transports are handed *)

Module ObserversMore.

Import WS.

Section BrokerFacts.

Import Broker BrokerProps BrokerMore.

Context `{Broker.Proto}.
Variable brokerUrl : string.

Lemma onmessage_observers s msg :
  onMessageObservable (Broker.onmessageHandler msg s)
  = match Broker.getType msg with
    | Some t =>
        if forwarded t
        then onMessageObservable s ++ [mkTransportMessage "LEGACY" msg]
        else onMessageObservable s
    | None => onMessageObservable s
    end.
Proof.
  unfold onmessageHandler, onWsMessage.
  destruct (Broker.getType msg) as [t|]; [| done].
  destruct t; unfold mbind, M_bind, bind, modify; simpl.
  - assert (Hinc : onMessageObservable (incrementRecv (length msg) s)
                   = onMessageObservable s)
      by (unfold incrementRecv; by destruct (stats s)).
    destruct (Broker.getAlias msg) as [a|]; simpl; [| done].
    match goal with |- context [sendCoordinatorMessage ?m ?s1] =>
      destruct (sendCoordinatorMessage_cases m s1)
        as [-> | (j & w & _ & _ & _ & ->)]
    end; done.
  - unfold incrementRecv; by destruct (stats s).
  - unfold dispatchTopicDurationStart; by destruct (stats s).
  - unfold dispatchTopicDurationStart; by destruct (stats s).
  - unfold dispatchTopicDurationStart; by destruct (stats s).
  - unfold incrementRecv; by destruct (stats s).
Qed.

Lemma broker_step_observers s ev :
  onMessageObservable (Broker.step brokerUrl s ev) = onMessageObservable s
  \/ exists i msg t,
       ev = Broker.SocketMessage i msg
       /\ Broker.getType msg = Some t /\ forwarded t = true
       /\ onMessageObservable (Broker.step brokerUrl s ev)
          = onMessageObservable s ++ [mkTransportMessage "LEGACY" msg].
Proof.
  assert (Hon : forall i f, onMessageObservable (on_socket i f s) = onMessageObservable s)
    by (intros i f; unfold on_socket; by destruct (sockets s !! i)).
  destruct ev as [| msg r | | i | i | i msg | i | i]; simpl.
  - left. unfold exec, connect, connectWS. by destruct (ws s).
  - left. unfold exec, send.
    by destruct (sendCoordinatorMessage_cases msg s) as [-> | (j & w & _ & _ & _ & ->)].
  - left. unfold exec, disconnect. destruct (ws s); simpl; [apply Hon | done].
  - left. apply Hon.
  - left. apply Hon.
  - destruct (sockets s !! i) as [wi|]; [| by left].
    destruct (bool_decide (readyState wi = OPEN) && onmessage wi); [| by left].
    rewrite onmessage_observers.
    destruct (Broker.getType msg) as [t|] eqn:Hty; [| by left].
    destruct (forwarded t) eqn:Hf; [| by left].
    right. by exists i, msg, t.
  - destruct (sockets s !! i) as [wi|]; [| by left].
    destruct (decide (readyState wi = CLOSED)); [by left |].
    left. destruct (onerror wi); simpl; apply Hon.
  - destruct (sockets s !! i) as [wi|]; [| by left].
    destruct (decide (readyState wi = CLOSED)); [by left |]. left. apply Hon.
Qed.

(** X24: the observers of the broker transport are handed exactly the
    forwarded frames it receives.  A TOPIC_FW, TOPIC_IDENTITY_FW or PING
    frame that arrives on an open socket whose handler is set is handed over
    once, raw, under the topic LEGACY; and in every reachable state, whatever
    the observers were handed is such a frame of the trace. *)
Theorem broker_observers_get_received_frames tr :
  (forall i w msg t,
      sockets (Broker.run brokerUrl Broker.init tr) !! i = Some w ->
      readyState w = OPEN -> onmessage w = true ->
      Broker.getType msg = Some t -> forwarded t = true ->
      onMessageObservable
        (Broker.run brokerUrl Broker.init (tr ++ [Broker.SocketMessage i msg]))
      = onMessageObservable (Broker.run brokerUrl Broker.init tr)
        ++ [mkTransportMessage "LEGACY" msg])
  /\ (forall m,
        m ∈ onMessageObservable (Broker.run brokerUrl Broker.init tr) ->
        exists i msg t,
          Broker.SocketMessage i msg ∈ tr
          /\ Broker.getType msg = Some t /\ forwarded t = true
          /\ m = mkTransportMessage "LEGACY" msg).
Proof.
  split.
  { intros i w msg t Hw Hopen Hh Hty Hf. rewrite BrokerProps.run_snoc. simpl.
    rewrite Hw, Hopen, Hh. rewrite bool_decide_eq_true_2 by done. simpl.
    rewrite onmessage_observers, Hty, Hf. done. }
  induction tr as [|ev tr IH] using rev_ind; intros m Hm.
  - by apply elem_of_nil in Hm.
  - rewrite BrokerProps.run_snoc in Hm.
    destruct (broker_step_observers (Broker.run brokerUrl Broker.init tr) ev)
      as [Heq | (i & msg & t & -> & Hty & Hf & Heq)]; rewrite Heq in Hm.
    + destruct (IH m Hm) as (i & msg & t & Hin & Hrest).
      exists i, msg, t. split; [apply elem_of_app; by left | done].
    + apply elem_of_app in Hm as [Hm | Hm].
      * destruct (IH m Hm) as (i' & msg' & t' & Hin & Hrest).
        exists i', msg', t'. split; [apply elem_of_app; by left | done].
      * apply list_elem_of_singleton in Hm as ->.
        exists i, msg, t. split; [| done].
        apply elem_of_app. right. by apply list_elem_of_singleton.
Qed.

End BrokerFacts.

Section BFFFacts.

Import BFF BFFProps BFFMore.

Context {number : Type} `{BFF.Proto number}.
Variable bffUrl : string.

(** The two observables of decoded frames. *)
Lemma observables_on_socket i f s :
  onTopicMessageObservable (on_socket i f s) = onTopicMessageObservable s
  /\ onIslandChangeObservable (on_socket i f s) = onIslandChangeObservable s.
Proof. unfold on_socket. by destruct (sockets s !! i). Qed.

Lemma observables_send msg s :
  onTopicMessageObservable (exec (send msg) s) = onTopicMessageObservable s
  /\ onIslandChangeObservable (exec (send msg) s) = onIslandChangeObservable s
  /\ onTopicMessageObservable (exec (floating (send msg)) s) = onTopicMessageObservable s
  /\ onIslandChangeObservable (exec (floating (send msg)) s) = onIslandChangeObservable s.
Proof.
  destruct (send_as_on_socket msg s) as (f & _ & Heq).
  destruct (observables_on_socket (default 0 (ws s)) f s) as [Ht Hi].
  rewrite <- Heq in Ht, Hi. unfold exec, floating in *.
  by destruct (send msg s) as [[[]|e] s'].
Qed.

Lemma observables_disconnect s :
  onTopicMessageObservable (exec disconnect s) = onTopicMessageObservable s
  /\ onIslandChangeObservable (exec disconnect s) = onIslandChangeObservable s.
Proof.
  unfold exec, disconnect.
  set (s1 := match heartBeatInterval s with Some t => clearInterval t s | None => s end).
  assert (Ht : onTopicMessageObservable s1 = onTopicMessageObservable s)
    by (subst s1; by destruct (heartBeatInterval s)).
  assert (Hi : onIslandChangeObservable s1 = onIslandChangeObservable s)
    by (subst s1; by destruct (heartBeatInterval s)).
  clearbody s1. destruct (ws s1) as [i|]; simpl; [| done].
  destruct (observables_on_socket i (fun w => WS.close (clear_handlers w)) s1)
    as [-> ->]. done.
Qed.

Lemma observables_sendHeartBeat position now1 now2 s :
  onTopicMessageObservable (exec (sendHeartBeat position now1 now2) s)
  = onTopicMessageObservable s
  /\ onIslandChangeObservable (exec (sendHeartBeat position now1 now2) s)
     = onIslandChangeObservable s
  /\ onTopicMessageObservable (exec (floating (sendHeartBeat position now1 now2)) s)
     = onTopicMessageObservable s
  /\ onIslandChangeObservable (exec (floating (sendHeartBeat position now1 now2)) s)
     = onIslandChangeObservable s.
Proof.
  destruct position as [p|]; [| done]. rewrite sendHeartBeat_known.
  apply observables_send.
Qed.

(** A frame the transport decodes for its observers. *)
Lemma bff_step_observers s ev :
  (onTopicMessageObservable (BFF.step bffUrl s ev) = onTopicMessageObservable s
   \/ exists i msg d,
        ev = BFF.SocketMessage i msg
        /\ BFF.getType msg = Some MessageType.TOPIC /\ getTopicData msg = Some d
        /\ onTopicMessageObservable (BFF.step bffUrl s ev)
           = onTopicMessageObservable s ++ [d])
  /\ (onIslandChangeObservable (BFF.step bffUrl s ev) = onIslandChangeObservable s
      \/ exists i msg connStr,
           ev = BFF.SocketMessage i msg
           /\ BFF.getType msg = Some MessageType.ISLAND_CHANGES
           /\ getConnStr msg = Some connStr
           /\ onIslandChangeObservable (BFF.step bffUrl s ev)
              = onIslandChangeObservable s ++ [connStr]).
Proof.
  assert (Hdis : forall s0,
            onTopicMessageObservable s0 = onTopicMessageObservable s ->
            onIslandChangeObservable s0 = onIslandChangeObservable s ->
            onTopicMessageObservable (exec disconnect s0) = onTopicMessageObservable s
            /\ onIslandChangeObservable (exec disconnect s0) = onIslandChangeObservable s).
  { intros s0 Ht Hi. destruct (observables_disconnect s0) as [-> ->]. done. }
  destruct ev; simpl.
  - unfold exec, connect_start, connectWS, mbind, M_bind, bind, modify.
    destruct (ws s) as [i|]; [| by split; left].
    destruct (sockets s !! i) as [w|]; [| by split; left].
    destruct (decide (readyState w = WS.OPEN)); simpl; [by split; left |].
    destruct (observables_on_socket i WS.close s) as [-> ->]. by split; left.
  - destruct (connecting s); by split; left.
  - destruct (Hdis s eq_refl eq_refl) as [-> ->]; by split; left.
  - destruct (observables_send msg s) as (-> & -> & _). by split; left.
  - destruct (observables_send
                (serializeTopic (mkTopic MessageType.TOPIC topic encodedBody)) s)
      as (_ & _ & Ht & Hi).
    unfold sendTopicMessage. rewrite Ht, Hi. by split; left.
  - match goal with |- context [setTopics ?r] =>
      destruct (observables_send
                  (serializeSubscription
                     (mkSubscription MessageType.SUBSCRIPTION
                        (String.list_byte_of_string (String.concat " " r)))) s)
        as (_ & _ & Ht & Hi) end.
    unfold setTopics. rewrite Ht, Hi. by split; left.
  - destruct (observables_sendHeartBeat position now1 now2 s) as (-> & -> & _).
    by split; left.
  - destruct (bool_decide (t ∈ timers s)); [| by split; left].
    destruct (observables_sendHeartBeat position now1 now2 s) as (_ & _ & -> & ->).
    by split; left.
  - destruct (observables_on_socket i
                (fun w => if decide (readyState w = CONNECTING)
                          then set_readyState WS.OPEN w else w) s) as [-> ->].
    by split; left.
  - destruct (observables_on_socket i
                (fun w => if decide (readyState w = WS.OPEN)
                          then set_readyState CLOSING w else w) s) as [-> ->].
    by split; left.
  - destruct (sockets s !! i) as [w|]; [| by split; left].
    destruct (bool_decide (readyState w = WS.OPEN) && onmessage w); [| by split; left].
    unfold onmessageHandler, caught, onWsMessage.
    destruct (BFF.getType msg) as [[| | | | | | | | |tag]|] eqn:Hty; simpl;
      try (by split; left).
    + unfold mbind, M_bind, bind, modify. simpl.
      destruct (getPayload msg) as [payload|]; simpl; [| by split; left].
      match goal with |- context [floating (send ?m) ?s1] =>
        destruct (observables_send m s1) as (_ & _ & Ht & Hi);
        pose proof (floating_ok (send m) s1) as Hok end.
      unfold exec in Ht, Hi.
      destruct (floating _ _) as [[[]|e] s']; [| discriminate Hok].
      simpl in *. rewrite Ht, Hi. by split; left.
    + unfold mbind, M_bind, bind, modify, floating. simpl.
      rewrite disconnect_ok. simpl.
      destruct (Hdis (log LLog "validation failure, disconnecting bff" s)
                  eq_refl eq_refl) as [-> ->]; by split; left.
    + destruct (getTopicData msg) as [d|] eqn:Hd; simpl; [| by split; left].
      split; [| by left]. right. by exists i, msg, d.
    + destruct (getConnStr msg) as [c|] eqn:Hc; simpl; [| by split; left].
      split; [by left |]. right. by exists i, msg, c.
  - destruct (sockets s !! i) as [w|]; [| by split; left].
    destruct (decide (readyState w = CLOSED)); [by split; left |].
    destruct (observables_on_socket i (set_readyState CLOSED) s) as [Ht Hi].
    destruct (onerror w); [| rewrite Ht, Hi; by split; left].
    unfold onerrorHandler. rewrite caught_disconnect.
    destruct (Hdis (log LError "socket error" (on_socket i (set_readyState CLOSED) s))
                Ht Hi) as [-> ->]; by split; left.
  - destruct (sockets s !! i) as [w|]; [| by split; left].
    destruct (decide (readyState w = CLOSED)); [by split; left |].
    destruct (observables_on_socket i (set_readyState CLOSED) s) as [Ht Hi].
    destruct (onclose w); [| rewrite Ht, Hi; by split; left].
    unfold oncloseHandler. rewrite caught_disconnect.
    destruct (Hdis (on_socket i (set_readyState CLOSED) s) Ht Hi) as [-> ->];
      by split; left.
Qed.

(** X14: the observers of the BFF transport are handed exactly the
    decodable TOPIC and ISLAND_CHANGES frames it receives.  Such a frame that
    arrives on an open socket whose handler is set is handed over once (the
    peer id and body to the topic observers, the connection string to the
    island observers); and in every reachable state, whatever the observers
    were handed was decoded from such a frame of the trace. *)
Theorem bff_observers_get_received_frames tr :
  (forall i w msg,
      sockets (BFF.run bffUrl BFF.init tr) !! i = Some w ->
      readyState w = WS.OPEN -> onmessage w = true ->
      (forall d,
          BFF.getType msg = Some MessageType.TOPIC -> getTopicData msg = Some d ->
          onTopicMessageObservable
            (BFF.run bffUrl BFF.init (tr ++ [BFF.SocketMessage i msg]))
          = onTopicMessageObservable (BFF.run bffUrl BFF.init tr) ++ [d])
      /\ (forall connStr,
            BFF.getType msg = Some MessageType.ISLAND_CHANGES ->
            getConnStr msg = Some connStr ->
            onIslandChangeObservable
              (BFF.run bffUrl BFF.init (tr ++ [BFF.SocketMessage i msg]))
            = onIslandChangeObservable (BFF.run bffUrl BFF.init tr) ++ [connStr]))
  /\ (forall d,
        d ∈ onTopicMessageObservable (BFF.run bffUrl BFF.init tr) ->
        exists i msg,
          BFF.SocketMessage i msg ∈ tr
          /\ BFF.getType msg = Some MessageType.TOPIC /\ getTopicData msg = Some d)
  /\ (forall connStr,
        connStr ∈ onIslandChangeObservable (BFF.run bffUrl BFF.init tr) ->
        exists i msg,
          BFF.SocketMessage i msg ∈ tr
          /\ BFF.getType msg = Some MessageType.ISLAND_CHANGES
          /\ getConnStr msg = Some connStr).
Proof.
  split.
  { intros i w msg Hw Hopen Hh.
    split; intros d Hty Hd; rewrite bff_run_snoc; simpl;
      rewrite Hw, Hopen, Hh; rewrite bool_decide_eq_true_2 by done; simpl;
      unfold onmessageHandler, caught, onWsMessage; by rewrite Hty, Hd. }
  induction tr as [|ev tr [IHt IHi]] using rev_ind.
  - split; intros x Hx; by apply elem_of_nil in Hx.
  - rewrite bff_run_snoc.
    destruct (bff_step_observers (BFF.run bffUrl BFF.init tr) ev) as [Ht Hi].
    split.
    + intros d Hd.
      destruct Ht as [Heq | (i & msg & d' & -> & Hty & Hdec & Heq)]; rewrite Heq in Hd.
      * destruct (IHt d Hd) as (i & msg & Hin & Hrest).
        exists i, msg. split; [apply elem_of_app; by left | done].
      * apply elem_of_app in Hd as [Hd | Hd].
        -- destruct (IHt d Hd) as (i' & msg' & Hin & Hrest).
           exists i', msg'. split; [apply elem_of_app; by left | done].
        -- apply list_elem_of_singleton in Hd as ->. exists i, msg.
           split; [| done]. apply elem_of_app. right. by apply list_elem_of_singleton.
    + intros c Hc.
      destruct Hi as [Heq | (i & msg & c' & -> & Hty & Hdec & Heq)]; rewrite Heq in Hc.
      * destruct (IHi c Hc) as (i & msg & Hin & Hrest).
        exists i, msg. split; [apply elem_of_app; by left | done].
      * apply elem_of_app in Hc as [Hc | Hc].
        -- destruct (IHi c Hc) as (i' & msg' & Hin & Hrest).
           exists i', msg'. split; [apply elem_of_app; by left | done].
        -- apply list_elem_of_singleton in Hc as ->. exists i, msg.
           split; [| done]. apply elem_of_app. right. by apply list_elem_of_singleton.
Qed.

End BFFFacts.

Lemma broker_observers_get_received_frames_witness :
  Broker.onMessageObservable
    (Broker.run (H := Broker.toyProto) Broker.brokerUrl0 Broker.init
       (Broker.handshake ++ [Broker.SocketMessage 0 [Byte.x06; Byte.x2a]]))
  = [Broker.mkTransportMessage "LEGACY" [Byte.x06; Byte.x2a]].
Proof.
  destruct (broker_observers_get_received_frames (H := Broker.toyProto)
              Broker.brokerUrl0 Broker.handshake) as [Hdeliver _].
  apply (Hdeliver 0
           (WS.transmit [Byte.x02; Byte.x00; Byte.x07]
              (WS.set_readyState WS.OPEN
                 (WS.set_onmessage true
                    (WS.set_onerror true (WS.create Broker.brokerUrl0 "comms")))))
           [Byte.x06; Byte.x2a] Broker.PING); reflexivity.
Defined.

Lemma bff_observers_get_received_frames_witness :
  BFF.onTopicMessageObservable
    (BFF.run (H := BFF.toyProto) BFF.bffUrl0 BFF.init
       (BFF.established ++ [BFF.SocketMessage 0 [Byte.x07; Byte.x00; Byte.x2a]]))
  = [BFF.mkTopicData "peer" [Byte.x2a]].
Proof.
  destruct (bff_observers_get_received_frames (H := BFF.toyProto) BFF.bffUrl0
              BFF.established) as [Hdeliver _].
  destruct (Hdeliver 0 BFF.openSocket [Byte.x07; Byte.x00; Byte.x2a])
    as [Htopic _]; [reflexivity | reflexivity | reflexivity |].
  apply (Htopic (BFF.mkTopicData "peer" [Byte.x2a])); reflexivity.
Defined.

End ObserversMore.

(** ** What the BFF transport transmits *)

Module BFFWire.

Import WS BFF BFFProps BFFMore.

Section Facts.

Context {number : Type} `{Proto number}.
Variable bffUrl : string.

#[local] Abbreviation step := (BFF.step bffUrl).
#[local] Abbreviation run := (BFF.run bffUrl).

Lemma wire_on_socket i g s j w' f :
  (forall w, wire (g w) = wire w) ->
  sockets (on_socket i g s) !! j = Some w' -> f ∈ wire w' ->
  exists w, sockets s !! j = Some w /\ f ∈ wire w.
Proof.
  intros Hg. rewrite sockets_on_socket.
  destruct (decide (i = j)) as [<- | Hne]; [| by eauto].
  destruct (sockets s !! i) as [w|]; [| done]. simpl. intros [= <-] Hf.
  exists w. by rewrite <- Hg.
Qed.

Lemma wire_close w : wire (WS.close (clear_handlers w)) = wire w.
Proof. unfold WS.close, clear_handlers. simpl. by destruct (readyState w). Qed.

Lemma wire_send msg s j w' f :
  sockets (exec (send msg) s) !! j = Some w' -> f ∈ wire w' ->
  (exists w, sockets s !! j = Some w /\ f ∈ wire w) \/ f = msg.
Proof.
  unfold exec, send. destruct (ws s) as [i|]; simpl; [| by eauto].
  destruct (sockets s !! i) as [w|] eqn:Hw; simpl; [| by eauto].
  destruct (decide (i = j)) as [<- | Hne].
  - rewrite list_lookup_insert_eq by (by eapply lookup_lt_Some).
    intros [= <-]. unfold WS.send. destruct (readyState w); simpl; try by eauto.
    intros Hf. apply elem_of_app in Hf as [Hf | Hf]; [by eauto |].
    right. by apply list_elem_of_singleton in Hf.
  - rewrite list_lookup_insert_ne by done. by eauto.
Qed.

Lemma wire_floating_send msg s j w' f :
  sockets (exec (floating (send msg)) s) !! j = Some w' -> f ∈ wire w' ->
  (exists w, sockets s !! j = Some w /\ f ∈ wire w) \/ f = msg.
Proof.
  pose proof (wire_send msg s j w' f) as Hs. unfold exec, floating in *.
  by destruct (send msg s) as [[[]|e] s'].
Qed.

Lemma wire_disconnect s j w' f :
  sockets (exec disconnect s) !! j = Some w' -> f ∈ wire w' ->
  exists w, sockets s !! j = Some w /\ f ∈ wire w.
Proof.
  unfold exec, disconnect.
  set (s1 := match heartBeatInterval s with Some t => clearInterval t s | None => s end).
  assert (Hs1 : sockets s1 = sockets s) by (subst s1; by destruct (heartBeatInterval s)).
  clearbody s1. rewrite <- Hs1.
  destruct (ws s1) as [i|]; simpl; [| by eauto].
  apply wire_on_socket, wire_close.
Qed.

Lemma wire_connectWS s j w' f :
  sockets (exec (connectWS bffUrl) s) !! j = Some w' -> f ∈ wire w' ->
  exists w, sockets s !! j = Some w /\ f ∈ wire w.
Proof.
  assert (Hfresh : forall s1 w0,
            (sockets s1 ++ [w0]) !! j = Some w' -> wire w0 = [] -> f ∈ wire w' ->
            exists w, sockets s1 !! j = Some w /\ f ∈ wire w).
  { intros s1 w0 Hj Hw0 Hf.
    destruct (decide (j < length (sockets s1))) as [Hlt | Hge].
    - rewrite lookup_app_l in Hj by done. eauto.
    - rewrite lookup_app_r in Hj by lia.
      destruct (j - length (sockets s1)); simpl in Hj; [| done].
      injection Hj as <-. rewrite Hw0 in Hf. by apply elem_of_nil in Hf. }
  assert (Hclose : forall w, wire (WS.close w) = wire w)
    by (intros w; unfold WS.close; by destruct (readyState w)).
  unfold exec, connectWS. destruct (ws s) as [i|]; simpl.
  - destruct (sockets s !! i) as [w|] eqn:Hw; simpl.
    + destruct (decide (readyState w = WS.OPEN)); simpl; [by eauto |].
      intros Hj Hf.
      destruct (Hfresh (on_socket i WS.close s) _ Hj eq_refl Hf) as (w1 & Hw1 & Hf1).
      by apply (wire_on_socket i WS.close s j w1 f Hclose).
    + intros Hj Hf. by apply (Hfresh s _ Hj).
  - intros Hj Hf. by apply (Hfresh s _ Hj).
Qed.

Lemma wire_sendHeartBeat position now1 now2 s j w' f :
  sockets (exec (sendHeartBeat position now1 now2) s) !! j = Some w'
  \/ sockets (exec (floating (sendHeartBeat position now1 now2)) s) !! j = Some w' ->
  f ∈ wire w' ->
  (exists w, sockets s !! j = Some w /\ f ∈ wire w)
  \/ exists p, position = Some p /\ f = heartBeatFrame p now1 now2.
Proof.
  destruct position as [p|].
  - rewrite sendHeartBeat_known. intros [Hj | Hj] Hf.
    + destruct (wire_send _ s j w' f Hj Hf) as [? | ->]; [by left | right; by exists p].
    + destruct (wire_floating_send _ s j w' f Hj Hf) as [? | ->];
        [by left | right; by exists p].
  - intros [Hj | Hj] Hf; left; by exists w'.
Qed.

Lemma wire_onmessage msg s j w' f :
  sockets (onmessageHandler msg s) !! j = Some w' -> f ∈ wire w' ->
  (exists w, sockets s !! j = Some w /\ f ∈ wire w)
  \/ (getType msg = Some MessageType.OPEN
      /\ exists payload,
           getPayload msg = Some payload
           /\ f = serializeValidation
                    (mkValidation MessageType.VALIDATION (signedPayload payload))).
Proof.
  unfold onmessageHandler, caught, onWsMessage.
  destruct (getType msg) as [[| | | | | | | | |tag]|] eqn:Hty; simpl;
    try (by eauto).
  - unfold mbind, M_bind, bind, modify. simpl.
    destruct (getPayload msg) as [payload|]; simpl; [| by eauto].
    match goal with |- context [floating (send ?m) ?s1] =>
      pose proof (wire_floating_send m s1 j w' f) as Hsend;
      pose proof (floating_ok (send m) s1) as Hok end.
    unfold exec in Hsend.
    destruct (floating _ _) as [[[]|e] s']; [| discriminate Hok].
    simpl in *. intros Hj Hf. destruct (Hsend Hj Hf) as [? | ->]; [by left |].
    right. split; [done |]. by exists payload.
  - unfold mbind, M_bind, bind, modify, floating. simpl.
    rewrite disconnect_ok. simpl. intros Hj Hf. left.
    exact (wire_disconnect (log LLog "validation failure, disconnecting bff" s)
             j w' f Hj Hf).
  - destruct (getTopicData msg); simpl; by eauto.
  - destruct (getConnStr msg); simpl; by eauto.
Qed.

(** One event adds to the wires only the frame it may. *)
Lemma bff_step_wire s ev j w' f :
  sockets (step s ev) !! j = Some w' -> f ∈ wire w' ->
  (exists w, sockets s !! j = Some w /\ f ∈ wire w) \/ emits ev f.
Proof.
  destruct ev; simpl.
  - unfold exec, connect_start, mbind, M_bind, bind, modify.
    pose proof (wire_connectWS s j w' f) as Hc. unfold exec in Hc.
    destruct (connectWS bffUrl s) as [[[]|e] s']; simpl in *; intros Hj Hf; left;
      exact (Hc Hj Hf).
  - destruct (connecting s); by eauto.
  - intros Hj Hf. left. exact (wire_disconnect s j w' f Hj Hf).
  - apply wire_send.
  - apply wire_floating_send.
  - apply wire_floating_send.
  - intros Hj Hf.
    destruct (wire_sendHeartBeat position now1 now2 s j w' f (or_introl Hj) Hf)
      as [? | (p & -> & ->)]; [by left | by right].
  - destruct (bool_decide (t ∈ timers s)); [| by eauto]. intros Hj Hf.
    destruct (wire_sendHeartBeat position now1 now2 s j w' f (or_intror Hj) Hf)
      as [? | (p & -> & ->)]; [by left | by right].
  - intros Hj Hf. left. eapply wire_on_socket; [| exact Hj | exact Hf].
    intros w. simpl. by destruct (decide (readyState w = CONNECTING)).
  - intros Hj Hf. left. eapply wire_on_socket; [| exact Hj | exact Hf].
    intros w. simpl. by destruct (decide (readyState w = WS.OPEN)).
  - destruct (sockets s !! i) as [wi|]; [| by eauto].
    destruct (bool_decide (readyState wi = WS.OPEN) && onmessage wi); [| by eauto].
    apply wire_onmessage.
  - destruct (sockets s !! i) as [wi|]; [| by eauto].
    destruct (decide (readyState wi = CLOSED)); [by eauto |].
    intros Hj Hf. left.
    assert (Hset : forall w1,
              sockets (on_socket i (set_readyState CLOSED) s) !! j = Some w1 ->
              f ∈ wire w1 -> exists w, sockets s !! j = Some w /\ f ∈ wire w)
      by (intros w1; by apply wire_on_socket).
    destruct (onerror wi); [| by apply (Hset w')].
    unfold onerrorHandler in Hj. rewrite caught_disconnect in Hj.
    destruct (wire_disconnect _ j w' f Hj Hf) as (w1 & Hw1 & Hf1).
    by apply (Hset w1).
  - destruct (sockets s !! i) as [wi|]; [| by eauto].
    destruct (decide (readyState wi = CLOSED)); [by eauto |].
    intros Hj Hf. left.
    assert (Hset : forall w1,
              sockets (on_socket i (set_readyState CLOSED) s) !! j = Some w1 ->
              f ∈ wire w1 -> exists w, sockets s !! j = Some w /\ f ∈ wire w)
      by (intros w1; by apply wire_on_socket).
    destruct (onclose wi); [| by apply (Hset w')].
    unfold oncloseHandler in Hj. rewrite caught_disconnect in Hj.
    destruct (wire_disconnect _ j w' f Hj Hf) as (w1 & Hw1 & Hf1).
    by apply (Hset w1).
Qed.

(** X25: in every reachable state, every frame transmitted on a socket of
    the BFF transport is the frame of one of the events so far: a frame a
    caller handed to [send], the TOPIC frame of a [sendTopicMessage], the
    SUBSCRIPTION frame of a [setTopics], the HEARTBEAT frame of a heartbeat
    with a position, or the VALIDATION reply to a received OPEN frame.  The
    transport transmits nothing else. *)
Theorem bff_transmits_only_requested_frames tr j w f :
  sockets (run init tr) !! j = Some w -> f ∈ wire w ->
  exists ev, ev ∈ tr /\ emits ev f.
Proof.
  revert j w. induction tr as [|ev tr IH] using rev_ind; intros j w Hj Hf.
  - by destruct j.
  - rewrite bff_run_snoc in Hj.
    destruct (bff_step_wire _ ev j w f Hj Hf) as [(w0 & Hw0 & Hf0) | He].
    + destruct (IH j w0 Hw0 Hf0) as (ev0 & Hin & He0).
      exists ev0. split; [apply elem_of_app; by left | done].
    + exists ev. split; [| done]. apply elem_of_app. right.
      by apply list_elem_of_singleton.
Qed.

End Facts.

#[local] Existing Instance toyProto.

Lemma bff_transmits_only_requested_frames_witness :
  exists ev,
    ev ∈ established ++ [CallSendTopicMessage "t" [Byte.x2a]]
    /\ emits ev [Byte.x07; Byte.x2a].
Proof.
  apply (bff_transmits_only_requested_frames bffUrl0
           (established ++ [CallSendTopicMessage "t" [Byte.x2a]]) 0
           (transmit [Byte.x07; Byte.x2a] openSocket)).
  - reflexivity.
  - vm_compute. constructor.
Defined.

End BFFWire.
